(** * stelloauth: OAuth helper for the Stellantis identity portals

    A shallow embedding of the two implementation variants of the service
    (the browser-driven [main.go] and the manual HTTP form-replay variant)
    together with the properties of its specification.

    Go strings are byte strings and are modelled as [string] (a list of
    8-bit [ascii]); Go maps with string keys as [gmap string _]; Go's
    [(value, error)] results as sums. Calls into the Go standard library
    and into chromedp that reach the outside world (HTTP client, browser)
    are oracles passed as parameters. *)

From Stdlib Require Import ZArith Ascii String List Lia.
From stdpp Require Import base gmap strings list.

Local Open Scope Z_scope.

(** ** Characters that cannot be written inside a string literal *)

Definition dquote : ascii := "034"%char.
Definition squote : ascii := "039"%char.
Definition DQ : string := String dquote EmptyString.
Definition SQ : string := String squote EmptyString.

(** ** package strings *)

Module strings.

(** [strings.HasPrefix(s, prefix)]. *)
Fixpoint HasPrefix (s prefix : string) {struct prefix} : bool :=
  match prefix with
  | EmptyString => true
  | String p prefix' =>
      match s with
      | EmptyString => false
      | String c s' => if Ascii.eqb c p then HasPrefix s' prefix' else false
      end
  end.

(** [strings.Contains(s, substr)]. *)
Fixpoint Contains (s substr : string) : bool :=
  HasPrefix s substr ||
  match s with
  | EmptyString => false
  | String _ s' => Contains s' substr
  end.

Definition is_upper (c : ascii) : bool :=
  let n := nat_of_ascii c in (65 <=? n)%nat && (n <=? 90)%nat.

Definition lower_byte (c : ascii) : ascii :=
  if is_upper c then ascii_of_nat (nat_of_ascii c + 32) else c.

(** [strings.ToLower(s)] on the ASCII range: the letters A-Z are mapped
    to a-z, every other byte is kept. (Go maps non-ASCII runes through
    the Unicode tables; country codes are ASCII.) *)
Fixpoint ToLower (s : string) : string :=
  match s with
  | EmptyString => EmptyString
  | String c s' => String (lower_byte c) (ToLower s')
  end.

End strings.

(** ** package fmt *)

Module fmt.

(** [fmt.Sprintf(format, args...)] for string arguments and the verbs
    the program uses: [%s] and [%v] print the next argument, [%%] prints
    a percent sign. A verb without an argument prints Go's
    [%!s(MISSING)] marker; surplus arguments print [%!(EXTRA ...)],
    which is abbreviated here. *)
Fixpoint Sprintf (format : string) (args : list string) : string :=
  match format with
  | EmptyString =>
      match args with
      | [] => EmptyString
      | _ :: _ => "%!(EXTRA)"
      end
  | String "%" (String "%" rest) => String "%" (Sprintf rest args)
  | String "%" (String "s" rest) =>
      match args with
      | a :: args' => a +:+ Sprintf rest args'
      | [] => "%!s(MISSING)" +:+ Sprintf rest []
      end
  | String "%" (String "v" rest) =>
      match args with
      | a :: args' => a +:+ Sprintf rest args'
      | [] => "%!v(MISSING)" +:+ Sprintf rest []
      end
  | String c rest => String c (Sprintf rest args)
  end.

End fmt.

(** ** package net/url: escaping *)

Module url.

Definition is_alnum (c : ascii) : bool :=
  let n := nat_of_ascii c in
  ((97 <=? n) && (n <=? 122) || (65 <=? n) && (n <=? 90)
   || (48 <=? n) && (n <=? 57))%nat.

(** [shouldEscape(c, encodeQueryComponent)]: letters, digits and the
    marks [-_.~] are kept, every other byte is escaped. *)
Definition shouldEscape (c : ascii) : bool :=
  if is_alnum c then false
  else if (Ascii.eqb c "-" || Ascii.eqb c "_" || Ascii.eqb c "."
           || Ascii.eqb c "~") then false
  else true.

(** The digit of [upperhex = "0123456789ABCDEF"] at index [n]. *)
Definition upperhex (n : nat) : ascii :=
  if (n <? 10)%nat then ascii_of_nat (48 + n) else ascii_of_nat (55 + n).

Definition escape_byte (c : ascii) : string :=
  if Ascii.eqb c " " then "+"
  else if shouldEscape c then
    String "%" (String (upperhex (nat_of_ascii c / 16))
               (String (upperhex (nat_of_ascii c mod 16)) EmptyString))
  else String c EmptyString.

(** [url.QueryEscape(s)]. *)
Fixpoint QueryEscape (s : string) : string :=
  match s with
  | EmptyString => EmptyString
  | String c s' => escape_byte c +:+ QueryEscape s'
  end.

End url.

(** ** package regexp

    A backtracking matcher with Perl's leftmost-first priorities, which
    are the ones Go's (non-POSIX) [regexp] reports: at each position the
    first alternative is preferred and [*], [+] take as much as they can
    before giving characters back. The syntax covers what the patterns
    of the program use; repetition applies to character classes only.
    All the patterns' literal characters are ASCII and their classes
    are complements of ASCII sets or ASCII sets, so matching bytes
    finds the same matches as matching UTF-8 runes. *)

Module regexp.

Inductive Regexp : Type :=
| Eps                                  (* the empty pattern *)
| Lit (l : string)                     (* a literal string *)
| Class (p : ascii -> bool)            (* one character of a class *)
| Star (p : ascii -> bool)             (* [p*], greedy *)
| Plus (p : ascii -> bool)             (* [p+], greedy *)
| Seq (r1 r2 : Regexp)
| Alt (r1 r2 : Regexp)                 (* [r1|r2], [r1] preferred *)
| Group (n : nat) (r : Regexp).        (* the [n]-th capturing group *)

Definition seq (rs : list Regexp) : Regexp := foldr Seq Eps rs.

(** The rest of [s] after the literal [l], when [s] starts with [l]. *)
Fixpoint strip_prefix (l s : string) {struct l} : option string :=
  match l with
  | EmptyString => Some s
  | String a l' =>
      match s with
      | EmptyString => None
      | String c s' => if Ascii.eqb c a then strip_prefix l' s' else None
      end
  end.

Fixpoint take (n : nat) (s : string) : string :=
  match n, s with
  | S n', String c s' => String c (take n' s')
  | _, _ => EmptyString
  end.

(** The text between the position [s] and the later position [s']. *)
Definition consumed (s s' : string) : string :=
  take (String.length s - String.length s') s.

Section Matcher.
Context {R : Type}.

(** Greedy repetition of a class: take one more character when
    possible, and fall back to the continuation at this position
    when the longer attempts have all failed. *)
Fixpoint star_greedy (p : ascii -> bool) (k : string -> option R)
    (s : string) : option R :=
  match s with
  | EmptyString => k s
  | String c s' =>
      if p c then
        match star_greedy p k s' with
        | Some r => Some r
        | None => k s
        end
      else k s
  end.

Fixpoint run (r : Regexp) (s : string) (caps : list string)
    (k : string -> list string -> option R) : option R :=
  match r with
  | Eps => k s caps
  | Lit l =>
      match strip_prefix l s with
      | Some s' => k s' caps
      | None => None
      end
  | Class p =>
      match s with
      | String c s' => if p c then k s' caps else None
      | EmptyString => None
      end
  | Star p => star_greedy p (fun s' => k s' caps) s
  | Plus p =>
      match s with
      | String c s' =>
          if p c then star_greedy p (fun s' => k s' caps) s' else None
      | EmptyString => None
      end
  | Seq r1 r2 => run r1 s caps (fun s' caps' => run r2 s' caps' k)
  | Alt r1 r2 =>
      match run r1 s caps k with
      | Some x => Some x
      | None => run r2 s caps k
      end
  | Group n r =>
      run r s caps (fun s' caps' => k s' (<[n := consumed s s']> caps'))
  end.
End Matcher.

(** A match anchored at the start of [s]: the submatch slice (whole
    match at index 0, then the [groups] capture groups, empty when
    unset) and the length of the match. *)
Definition match_here (r : Regexp) (groups : nat) (s : string)
    : option (list string * nat) :=
  run r s (replicate (S groups) EmptyString)
    (fun s' caps =>
       Some (<[O := consumed s s']> caps,
             (String.length s - String.length s')%nat)).

(** [re.FindStringSubmatch(s)]: the leftmost match, [None] for Go's
    [nil]. *)
Fixpoint FindStringSubmatch (r : Regexp) (groups : nat) (s : string)
    : option (list string) :=
  match match_here r groups s with
  | Some (m, _) => Some m
  | None =>
      match s with
      | EmptyString => None
      | String _ s' => FindStringSubmatch r groups s'
      end
  end.

(** [re.FindAllStringSubmatch(s, -1)]: successive non-overlapping
    leftmost matches. [skip] counts the characters of the previous
    match that are still to be passed over. (After an empty match Go
    moves on by one character, as here, and refuses an empty match
    next to the previous match; no pattern of the program matches the
    empty string.) *)
Fixpoint find_all (r : Regexp) (groups : nat) (s : string) (skip : nat)
    : list (list string) :=
  match skip with
  | S skip' =>
      match s with
      | EmptyString => []
      | String _ s' => find_all r groups s' skip'
      end
  | O =>
      match match_here r groups s with
      | Some (m, len) =>
          m :: match s with
               | EmptyString => []
               | String _ s' => find_all r groups s' (len - 1)
               end
      | None =>
          match s with
          | EmptyString => []
          | String _ s' => find_all r groups s' 0
          end
      end
  end.

Definition FindAllStringSubmatch (r : Regexp) (groups : nat) (s : string)
    : list (list string) :=
  find_all r groups s 0.

(** [P] holds at [s] and at every later position that a repetition
    of [p] started at [s] can reach. *)
Fixpoint all_reach (p : ascii -> bool) (P : string -> Prop) (s : string)
    : Prop :=
  P s /\ match s with
         | EmptyString => True
         | String c s' => p c = true -> all_reach p P s'
         end.

(** Every character of [s] is in the class [p]. *)
Fixpoint all_chars (p : ascii -> bool) (s : string) : bool :=
  match s with
  | EmptyString => true
  | String c s' => p c && all_chars p s'
  end.


(** Character classes of the patterns: a quote character (double or
    single), anything but a quote, anything but the closing angle
    bracket, and Perl's white space [\s] (space, tab, newline, form
    feed, carriage return). *)
Definition is_quote (c : ascii) : bool :=
  Ascii.eqb c dquote || Ascii.eqb c squote.
Definition not_quote (c : ascii) : bool := negb (is_quote c).
Definition not_gt (c : ascii) : bool := negb (Ascii.eqb c ">").
Definition is_space (c : ascii) : bool :=
  Ascii.eqb c " " || Ascii.eqb c "009" || Ascii.eqb c "010"
  || Ascii.eqb c "012" || Ascii.eqb c "013".

(** A string without quote characters: what can stand between the
    quotes of an attribute. *)
Definition quote_free (s : string) : Prop := all_chars not_quote s = true.

End regexp.

(** ** Data model (the same declarations in both variants) *)

Record OAuthRequest : Type := {
  Brand : string;
  Country : string;
  Email : string;
  Password : string;
}.

Record OAuthData : Type := { Code : string }.

(** [Data] is a pointer with [omitempty]: absent in error responses. *)
Record OAuthResponse : Type := {
  Status : string;
  Message : string;
  Data : option OAuthData;
}.

Record CountryConfig : Type := {
  Locale : string;
  ClientID : string;
  ClientSecret : string;
}.

Record BrandConfig : Type := {
  OAuthURL : string;
  Realm : string;
  Scheme : string;
  Configs : gmap string CountryConfig;
}.

(** A Go [(string, error)] result; the error is its message. *)
Inductive result : Type :=
| Ok (value : string)
| Err (message : string).

(** What a handler wrote to its [http.ResponseWriter]: the status code
    and the JSON value that was encoded as the body. *)
Record HTTPResponse : Type := {
  StatusCode : Z;
  ContentType : string;
  Body : OAuthResponse;
}.

Definition StatusOK : Z := 200.
Definition StatusBadRequest : Z := 400.
Definition StatusMethodNotAllowed : Z := 405.
Definition StatusInternalServerError : Z := 500.
Definition MethodPost : string := "POST".

(** [sendError(w, message, statusCode)]. *)
Definition sendError (message : string) (statusCode : Z) : HTTPResponse :=
  {| StatusCode := statusCode;
     ContentType := "application/json";
     Body := {| Status := "error"; Message := message; Data := None |} |}.

(** [sendSuccess(w, code)]: no explicit [WriteHeader], so the status is
    200. *)
Definition sendSuccess (code : string) : HTTPResponse :=
  {| StatusCode := StatusOK;
     ContentType := "application/json";
     Body := {| Status := "success"; Message := "";
                Data := Some {| Code := code |} |} |}.

(** The incoming request as [handleOAuth] reads it: the method, the
    [Accept] header, and the outcome of decoding the JSON body into an
    [OAuthRequest] ([None] when [Decode] fails; absent members decode to
    empty strings). *)
Record Request : Type := {
  Method : string;
  Accept : string;
  Decoded : option OAuthRequest;
}.

(** ** The part of net/url behind [url.Parse(u)] and
    [parsed.Query().Get(key)], as an interface: [url_Parse] is [inl]
    of the error's text when Go returns an error. *)
Class NetURL : Type := {
  URL : Type;
  url_Parse : string -> string + URL;
  Query_Get : URL -> string -> string;
}.

(** ** Building the authorization URL

    The two statements that both variants of [performOAuth] run once
    the brand and country configurations are found. *)
Definition redirectURI (brandConfig : BrandConfig) (country : string)
    : string :=
  fmt.Sprintf "%s://oauth2redirect/%s"
    [Scheme brandConfig; strings.ToLower country].

Definition authURL (brandConfig : BrandConfig) (countryConfig : CountryConfig)
    (country : string) : string :=
  fmt.Sprintf
    "%s/am/oauth2/authorize?client_id=%s&response_type=code&redirect_uri=%s&scope=openid%%20profile%%20email&locale=%s"
    [OAuthURL brandConfig; ClientID countryConfig;
     url.QueryEscape (redirectURI brandConfig country);
     Locale countryConfig].

(** The two map lookups of [performOAuth] with their error returns. *)
Definition lookupConfig (configs : gmap string BrandConfig)
    (req : OAuthRequest) : string + BrandConfig * CountryConfig :=
  match configs !! Brand req with
  | None => inl (fmt.Sprintf "unknown brand: %s" [Brand req])
  | Some brandConfig =>
      match Configs brandConfig !! Country req with
      | None =>
          inl (fmt.Sprintf "unknown country for brand %s: %s"
                 [Brand req; Country req])
      | Some countryConfig => inr (brandConfig, countryConfig)
      end
  end.

Definition nonempty (s : string) : bool :=
  match s with
  | EmptyString => false
  | String _ _ => true
  end.

(** ** package net/http: what the client hands back *)

Module http.

(** The parts of a [*http.Response] the program reads: the status
    code, the [Location] header (empty when absent), the bytes
    [io.ReadAll] obtained from the body and its error, if any. *)
Record Response : Type := {
  StatusCode : Z;
  Location : string;
  Body : string;
  BodyErr : option string;
}.

Inductive ConfigsResult : Type :=
| FetchErr (e : string)                        (* [http.Get] failed *)
| DecodeErr (e : string)                       (* the JSON decoder failed *)
| Fetched (configs : gmap string BrandConfig).

Inductive PostResult : Type :=
| NewRequestErr (e : string)                   (* [http.NewRequest] failed *)
| DoErr (e : string)                           (* [client.Do] failed *)
| Posted (resp : Response).

(** The network as an oracle over a state [World] (servers, cookie
    jar). [client_Get scheme u] is [client.Get(u)] of the client whose
    [CheckRedirect] stops at URLs of the custom scheme [scheme];
    [client_Post scheme u form] builds and sends the login request. *)
Class Client (World : Type) : Type := {
  Get_configs : World -> ConfigsResult * World;
  client_Get : string -> string -> World -> (string + Response) * World;
  client_Post :
    string -> string -> gmap string string -> World -> PostResult * World;
}.

End http.

(** ** The manual HTTP variant *)

Module Manual.
Import regexp.

(** The pattern of [extractFormAction]: the text [<form], any run of
    characters other than the closing bracket, [action=], a quote, the
    captured non-empty run of non-quote characters, a quote. *)
Definition reFormAction : Regexp :=
  seq [Lit "<form"; Star not_gt; Lit "action="; Class is_quote;
       Group 1 (Plus not_quote); Class is_quote].

Definition extractFormAction (html baseURL : string) : string :=
  match FindStringSubmatch reFormAction 1 html with
  | Some (_ :: action :: _) =>
      if strings.HasPrefix action "/" then baseURL +:+ action else action
  | _ => EmptyString
  end.

(** The two patterns of [extractHiddenFields]: [type] hidden, then
    [name], then [value]; and [value], then [type] hidden, then
    [name]. *)
Definition reHidden : Regexp :=
  seq [Lit "<input"; Star not_gt; Lit "type="; Class is_quote;
       Lit "hidden"; Class is_quote; Star not_gt; Lit "name=";
       Class is_quote; Group 1 (Plus not_quote); Class is_quote;
       Star not_gt; Lit "value="; Class is_quote;
       Group 2 (Star not_quote); Class is_quote].

Definition reHidden2 : Regexp :=
  seq [Lit "<input"; Star not_gt; Lit "value="; Class is_quote;
       Group 1 (Star not_quote); Class is_quote; Star not_gt;
       Lit "type="; Class is_quote; Lit "hidden"; Class is_quote;
       Star not_gt; Lit "name="; Class is_quote;
       Group 2 (Plus not_quote); Class is_quote].

Definition extractHiddenFields (html : string) : gmap string string :=
  let fields : gmap string string := ∅ in
  let matches := FindAllStringSubmatch reHidden 2 html in
  let fields :=
    foldl (fun fields match_ =>
             match match_ with
             | _ :: name :: value :: _ => <[name := value]> fields
             | _ => fields
             end) fields matches in
  let matches2 := FindAllStringSubmatch reHidden2 2 html in
  foldl (fun fields match_ =>
           match match_ with
           | _ :: value :: name :: _ => <[name := value]> fields
           | _ => fields
           end) fields matches2.

(** The patterns of [extractRedirectURL]: a script assignment to
    [window.location] or [location.href], and a meta refresh. *)
Definition reScriptRedirect : Regexp :=
  seq [Alt (Lit "window.location") (Lit "location.href"); Star is_space;
       Lit "="; Star is_space; Class is_quote; Group 1 (Plus not_quote);
       Class is_quote].

Definition reMetaRefresh : Regexp :=
  seq [Lit "<meta"; Star not_gt; Lit "http-equiv="; Class is_quote;
       Lit "refresh"; Class is_quote; Star not_gt; Lit "content=";
       Class is_quote; Star not_quote; Lit "url=";
       Group 1 (Plus not_quote); Class is_quote].

Definition extractRedirectURL (html : string) : string :=
  match FindStringSubmatch reScriptRedirect 1 html with
  | Some (_ :: target :: _) => target
  | _ =>
      match FindStringSubmatch reMetaRefresh 1 html with
      | Some (_ :: target :: _) => target
      | _ => EmptyString
      end
  end.

(** The two renderings of a hidden input: [type], [name], [value];
    and [value], [type], [name]. *)
Definition hidden_then_name (name value : string) : string :=
  "<input type=" +:+ DQ +:+ "hidden" +:+ DQ +:+ " name=" +:+ DQ +:+ name
  +:+ DQ +:+ " value=" +:+ DQ +:+ value +:+ DQ +:+ ">".


(** A form tag whose only attribute is the action. *)
Definition form_tag (action : string) : string :=
  "<form action=" +:+ DQ +:+ action +:+ DQ +:+ ">".


Section Flow.
Context {N : NetURL} {World : Type} {C : http.Client World}.

Definition extractCode (urlStr : string) : result :=
  match url_Parse urlStr with
  | inl e => Err (fmt.Sprintf "failed to parse redirect URL: %v" [e])
  | inr parsed =>
      let code := Query_Get parsed "code" in
      if nonempty code then Ok code
      else Err "no code found in redirect URL"
  end.

(** The location an iteration of [followRedirects] continues with:
    the [Location] header, or else a redirect found in the body. *)
Definition next_location (resp : http.Response) : string :=
  if nonempty (http.Location resp) then http.Location resp
  else extractRedirectURL (http.Body resp).

(** The loop [for i := 0; i < 10; i++] of [followRedirects], with
    [n] iterations left; leaving the loop by [break] or by the bound
    reaches the final [return]. *)
Fixpoint followRedirects_loop (n : nat) (currentURL scheme : string)
    (w : World) : result * World :=
  match n with
  | O => (Err "failed to complete redirect chain", w)
  | S n' =>
      if strings.HasPrefix currentURL (scheme +:+ "://")
      then (extractCode currentURL, w)
      else
        match http.client_Get scheme currentURL w with
        | (inl e, w') =>
            (Err (fmt.Sprintf "failed to follow redirect: %v" [e]), w')
        | (inr resp, w') =>
            let location := next_location resp in
            if negb (nonempty location)
            then (Err "failed to complete redirect chain", w')
            else if strings.HasPrefix location (scheme +:+ "://")
            then (extractCode location, w')
            else followRedirects_loop n' location scheme w'
        end
  end.

Definition followRedirects (startURL scheme : string) (w : World)
    : result * World :=
  followRedirects_loop 10 startURL scheme w.

(** A redirect chain of [n] hops from [u] as [followRedirects]
    meets it: each URL is fetched and answers with a next location,
    and none of the [n + 1] URLs has the custom scheme. *)
Fixpoint chain (n : nat) (scheme u : string) (w : World) : Prop :=
  strings.HasPrefix u (scheme +:+ "://") = false
  /\ match n with
     | O => True
     | S n' =>
         exists resp w',
           http.client_Get scheme u w = (inr resp, w')
           /\ next_location resp <> ""
           /\ chain n' scheme (next_location resp) w'
     end.

(** The URL reached and the state of the network after [k] hops. *)
Fixpoint after_hops (k : nat) (scheme u : string) (w : World)
    : option (string * World) :=
  match k with
  | O => Some (u, w)
  | S k' =>
      match http.client_Get scheme u w with
      | (inr resp, w') => after_hops k' scheme (next_location resp) w'
      | (inl _, _) => None
      end
  end.

Definition is_redirect_status (code : Z) : bool :=
  (300 <=? code) && (code <? 400).

(** [performOAuth] from the comment "Check for the redirect with the
    code" to its end: what is done with the response to the login
    POST. *)
Definition afterLogin (loginResp : http.Response) (scheme : string)
    (w : World) : result * World :=
  let location := http.Location loginResp in
  if nonempty location && strings.HasPrefix location (scheme +:+ "://")
  then (extractCode location, w)
  else
    let loginBody := http.Body loginResp in
    if is_redirect_status (http.StatusCode loginResp)
    then followRedirects location scheme w
    else if strings.Contains loginBody "error"
            || strings.Contains loginBody "invalid"
    then (Err "authentication failed - please check your credentials", w)
    else
      let redirectURL := extractRedirectURL loginBody in
      if nonempty redirectURL
      then followRedirects redirectURL scheme w
      else (Err "authentication failed - could not complete OAuth flow", w).

Definition loginData (req : OAuthRequest) (html : string)
    : gmap string string :=
  let loginData : gmap string string :=
    <["rememberMe" := "false"]>
      (<["password" := Password req]> (<["username" := Email req]> ∅)) in
  (* [for k, v := range hiddenFields { loginData.Set(k, v) }] *)
  extractHiddenFields html ∪ loginData.

Definition performOAuth (req : OAuthRequest) (w : World)
    : result * World :=
  match http.Get_configs w with
  | (http.FetchErr e, w) =>
      (Err (fmt.Sprintf "failed to fetch configs: %v" [e]), w)
  | (http.DecodeErr e, w) =>
      (Err (fmt.Sprintf "failed to parse configs: %v" [e]), w)
  | (http.Fetched configs, w) =>
      match lookupConfig configs req with
      | inl e => (Err e, w)
      | inr (brandConfig, countryConfig) =>
          let scheme := Scheme brandConfig in
          let authURL := authURL brandConfig countryConfig (Country req) in
          match http.client_Get scheme authURL w with
          | (inl e, w) =>
              (Err (fmt.Sprintf
                      "failed to access authorization page: %v" [e]), w)
          | (inr authResp, w) =>
              match http.BodyErr authResp with
              | Some e =>
                  (Err (fmt.Sprintf
                          "failed to read authorization page: %v" [e]), w)
              | None =>
                  let authBody := http.Body authResp in
                  let formAction :=
                    extractFormAction authBody (OAuthURL brandConfig) in
                  if negb (nonempty formAction)
                  then (Err "could not find login form", w)
                  else
                    match http.client_Post scheme formAction
                            (loginData req authBody) w with
                    | (http.NewRequestErr e, w) =>
                        (Err (fmt.Sprintf
                                "failed to create login request: %v" [e]),
                         w)
                    | (http.DoErr e, w) =>
                        (Err (fmt.Sprintf "failed to submit login: %v" [e]),
                         w)
                    | (http.Posted loginResp, w) =>
                        afterLogin loginResp scheme w
                    end
              end
          end
      end
  end.

Definition handleOAuth (r : Request) (w : World) : HTTPResponse * World :=
  if negb (String.eqb (Method r) MethodPost)
  then (sendError "Method not allowed" StatusMethodNotAllowed, w)
  else
    match Decoded r with
    | None => (sendError "Invalid request body" StatusBadRequest, w)
    | Some req =>
        if negb (nonempty (Brand req)) || negb (nonempty (Country req))
           || negb (nonempty (Email req)) || negb (nonempty (Password req))
        then (sendError "All fields are required" StatusBadRequest, w)
        else
          match performOAuth req w with
          | (Err e, w) => (sendError e StatusBadRequest, w)
          | (Ok code, w) => (sendSuccess code, w)
          end
    end.
End Flow.

(** The client [C] with a log of the URLs passed to [client.Get]. *)
Definition logged {World : Type} (C : http.Client World)
    : http.Client (World * list string) :=
  {| http.Get_configs := fun '(w, log) =>
       let '(r, w') := http.Get_configs w in (r, (w', log));
     http.client_Get := fun scheme u '(w, log) =>
       let '(r, w') := http.client_Get scheme u w in (r, (w', log ++ [u]));
     http.client_Post := fun scheme u form '(w, log) =>
       let '(r, w') := http.client_Post scheme u form w in (r, (w', log)) |}.

End Manual.

(** ** package chromedp: the browser as an oracle *)

Module chromedp.

(** The events the listener of [performChromedpOAuth] tells apart. *)
Inductive Event : Type :=
| EventRequestWillBeSent (requestURL : string)
| EventLoadingFailed (errorText : string)
| OtherEvent.

(** The task lists the program hands to [chromedp.Run], in source
    order. *)
Inductive Tasks : Type :=
| Navigate (authURL : string)    (* network.Enable, Navigate, WaitReady *)
| WaitVisibleEmail
| OuterHTML
| FillCredentials (email password : string)
| ClickSubmit                    (* Click, Sleep 5s *)
| EvaluateErrorText
| WaitVisibleAuthorize
| ClickAuthorize                 (* Click, Sleep 3s *)
| Sleep5s
| GetLocation.

(** One call of [chromedp.Run]: the events the target emitted while it
    ran, the error it returned, and the string it stored through the
    pointer argument of [OuterHTML], [Evaluate] or [Location]. *)
Record Outcome : Type := {
  events : list Event;
  err : option string;
  out : string;
}.

Class Browser (World : Type) : Type := {
  Run : Tasks -> World -> Outcome * World;
}.

End chromedp.

(** ** The browser-driven variant ([main.go]) *)

Module Browser.
Import chromedp.

(** The variables [performChromedpOAuth] shares with its listener, and
    the steps passed to the progress callback so far. *)
Record State : Type := {
  oauthCode : string;
  authError : string;
  reported : list string;
}.

Definition set_oauthCode (code : string) (st : State) : State :=
  {| oauthCode := code; authError := authError st;
     reported := reported st |}.
Definition set_authError (e : string) (st : State) : State :=
  {| oauthCode := oauthCode st; authError := e; reported := reported st |}.
Definition add_reported (step : string) (st : State) : State :=
  {| oauthCode := oauthCode st; authError := authError st;
     reported := reported st ++ [step] |}.

Section Listener.
Context {N : NetURL}.

(** The function given to [chromedp.ListenTarget]. *)
Definition listener (redirectPrefix : string) (st : State) (ev : Event)
    : State :=
  match ev with
  | EventRequestWillBeSent reqURL =>
      if strings.HasPrefix reqURL redirectPrefix then
        match url_Parse reqURL with
        | inr parsed =>
            let code := Query_Get parsed "code" in
            if nonempty code then set_oauthCode code st else st
        | inl _ => st
        end
      else st
  | EventLoadingFailed _ => st      (* only logs *)
  | OtherEvent => st
  end.

(** The listener run over the events of one stretch of the session. *)
Definition deliver (redirectPrefix : string) (st : State)
    (evs : list Event) : State :=
  foldl (listener redirectPrefix) st evs.

(** The code an event carries for the listener: that of a request
    whose URL has the prefix, parses, and has a non-empty [code]
    parameter. *)
Definition carried_code (redirectPrefix : string) (ev : Event)
    : option string :=
  match ev with
  | EventRequestWillBeSent reqURL =>
      if strings.HasPrefix reqURL redirectPrefix then
        match url_Parse reqURL with
        | inr parsed =>
            let code := Query_Get parsed "code" in
            if nonempty code then Some code else None
        | inl _ => None
        end
      else None
  | _ => None
  end.

(** The specification's reading of the capture: the first event
    that carries a code decides, later ones are ignored. *)
Definition first_capture (redirectPrefix : string) (evs : list Event)
    : string :=
  default "" (head (omap (carried_code redirectPrefix) evs)).

(** What the listener leaves in [oauthCode]: the code of the last
    event that carries one, or else the earlier value. *)
Definition last_capture (redirectPrefix earlier : string)
    (evs : list Event) : string :=
  default earlier (last (omap (carried_code redirectPrefix) evs)).
End Listener.

(** A computation of the flow: it reads and writes the shared
    variables and the browser, and either goes on with a value or has
    executed a [return]. *)
Inductive step (A : Type) : Type :=
| Return (r : result)
| Next (a : A).
Arguments Return {A} r.
Arguments Next {A} a.

Definition M (World A : Type) : Type :=
  State -> World -> step A * State * World.

Definition ret {World A} (a : A) : M World A :=
  fun st w => (Next a, st, w).

Definition bind {World A B} (m : M World A) (k : A -> M World B)
    : M World B :=
  fun st w =>
    match m st w with
    | (Return r, st', w') => (Return r, st', w')
    | (Next a, st', w') => k a st' w'
    end.

Definition return_ {World A} (r : result) : M World A :=
  fun st w => (Return r, st, w).

Notation "x <- m ;; k" := (bind m (fun x => k))
  (at level 20, m at level 99, k at level 200, only parsing).
Notation "m ;;; k" := (bind m (fun _ => k))
  (at level 100, k at level 200, right associativity, only parsing).

Section Flow.
Context {N : NetURL} {World : Type} {B : Browser World}.

(** [if progress != nil { progress(step) }]; [progress] tells
    whether the callback is non-nil. *)
Definition report (progress : bool) (step : string) : M World unit :=
  fun st w => (Next tt, if progress then add_reported step st else st, w).

(** [chromedp.Run(browserCtx, tasks...)], the listener seeing the
    events emitted meanwhile. *)
Definition run (redirectPrefix : string) (t : Tasks)
    : M World (option string * string) :=
  fun st w =>
    let '(o, w') := Run t w in
    (Next (err o, out o), deliver redirectPrefix st (events o), w').

Definition get_oauthCode : M World string :=
  fun st w => (Next (oauthCode st), st, w).

Definition assign_authError (e : string) : M World unit :=
  fun st w => (Next tt, set_authError e st, w).

(** [if err != nil { return "", fmt.Errorf(format, err) }]. *)
Definition check (e : option string) (format : string) : M World unit :=
  match e with
  | Some e => return_ (Err (fmt.Sprintf format [e]))
  | None => ret tt
  end.

(** [if cond { body }]. *)
Definition when (cond : bool) (body : M World unit) : M World unit :=
  if cond then body else ret tt.

(** The code of [currentURL] when it has the custom scheme, parses
    and carries a non-empty [code]. *)
Definition code_of_location (redirectPrefix currentURL : string)
    : option string :=
  if strings.HasPrefix currentURL redirectPrefix then
    match url_Parse currentURL with
    | inr parsed =>
        let code := Query_Get parsed "code" in
        if nonempty code then Some code else None
    | inl _ => None
    end
  else None.

(** [performChromedpOAuth] up to the check of the current URL. *)
Definition flow (authURL email password scheme : string)
    (progress : bool) : M World unit :=
  report progress "Starting browser..." ;;;
  let redirectPrefix := scheme +:+ "://" in
  let run := run redirectPrefix in
  report progress "Loading login page..." ;;;
  r <- run (Navigate authURL) ;;
  check (fst r) "failed to navigate: %v" ;;;
  report progress "Waiting for login form..." ;;;
  r <- run WaitVisibleEmail ;;
  match fst r with
  | Some e =>
      h <- run OuterHTML ;;
      let pageHTML := snd h in
      when (strings.Contains pageHTML "error"
            || strings.Contains pageHTML "Error")
           (assign_authError "login page error") ;;;
      return_ (Err (fmt.Sprintf "login form not found (timeout): %v" [e]))
  | None => ret tt
  end ;;;
  report progress "Entering credentials..." ;;;
  r <- run (FillCredentials email password) ;;
  check (fst r) "failed to fill credentials: %v" ;;;
  report progress "Submitting login..." ;;;
  r <- run ClickSubmit ;;
  check (fst r) "failed to submit login: %v" ;;;
  code <- get_oauthCode ;;
  (if nonempty code
   then report progress "Authentication successful!" ;;;
        return_ (Ok code)
   else ret tt) ;;;
  r <- run EvaluateErrorText ;;
  let errorText := snd r in
  (if nonempty errorText
   then return_ (Err (fmt.Sprintf "authentication failed: %s" [errorText]))
   else ret tt) ;;;
  report progress "Waiting for authorization..." ;;;
  r <- run WaitVisibleAuthorize ;;
  match fst r with
  | None =>
      report progress "Confirming authorization..." ;;;
      run ClickAuthorize ;;;
      ret tt
  | Some _ => ret tt
  end ;;;
  run Sleep5s ;;;
  code <- get_oauthCode ;;
  (if nonempty code then return_ (Ok code) else ret tt) ;;;
  r <- run GetLocation ;;
  let currentURL := snd r in
  match code_of_location redirectPrefix currentURL with
  | Some code => return_ (Ok code)
  | None => ret tt
  end.

(** A computation that goes on leaves [authError] empty if it
    was. *)
Definition keeps_authError {A : Type} (m : M World A) : Prop :=
  forall st w a st' w',
    authError st = "" -> m st w = (Next a, st', w') -> authError st' = "".

(** A computation that always executes a [return]. *)
Definition returns {A : Type} (m : M World A) : Prop :=
  forall st w a st' w', m st w <> (Next a, st', w').

(** The last two statements of [performChromedpOAuth]. *)
Definition finalCheck : M World Empty_set :=
  fun st w =>
    if nonempty (authError st)
    then (Return (Err (fmt.Sprintf "authentication failed: %s"
                         [authError st])), st, w)
    else (Return (Err "authentication failed - could not retrieve OAuth code"),
          st, w).

Definition initial : State :=
  {| oauthCode := ""; authError := ""; reported := [] |}.

(** The result of a finished computation. *)
Definition returned (s : step Empty_set) : result :=
  match s with
  | Return r => r
  | Next e => match e with end
  end.

(** [performChromedpOAuth]: its result, the steps it reported and
    the browser afterwards. *)
Definition performChromedpOAuth (authURL email password scheme : string)
    (progress : bool) (w : World) : result * list string * World :=
  let '(s, st, w') :=
    (flow authURL email password scheme progress ;;; finalCheck)
      initial w in
  (returned s, reported st, w').

(** [performOAuth(req, progress)]; [configs] is the outcome of
    [json.Unmarshal(configsJSON, &configs)] on the embedded file. *)
Definition performOAuth (configs : string + gmap string BrandConfig)
    (req : OAuthRequest) (progress : bool) (w : World)
    : result * list string * World :=
  let first := if progress then ["Preparing authentication..."] else [] in
  match configs with
  | inl e => (Err (fmt.Sprintf "failed to parse configs: %v" [e]), first, w)
  | inr configs =>
      match lookupConfig configs req with
      | inl e => (Err e, first, w)
      | inr (brandConfig, countryConfig) =>
          let authURL := authURL brandConfig countryConfig (Country req) in
          let '(r, steps, w') :=
            performChromedpOAuth authURL (Email req) (Password req)
              (Scheme brandConfig) progress w in
          (r, first ++ steps, w')
      end
  end.

(** What the handler wrote: one JSON document, or a stream of
    server-sent events. *)
Inductive Written : Type :=
| JSON (resp : HTTPResponse)
| EventStream (lines : list string).

(** One event as [handleOAuthSSE] prints it: the text [data: ] and a
    JSON object with the member [type] and one more member, then two
    newlines. *)
Definition sse_event (type key value : string) : string :=
  "data: {" +:+ DQ +:+ "type" +:+ DQ +:+ ":" +:+ DQ +:+ type +:+ DQ +:+ ","
  +:+ DQ +:+ key +:+ DQ +:+ ":" +:+ DQ +:+ value +:+ DQ +:+ "}"
  +:+ String "010" (String "010" EmptyString).

(** [handleOAuthSSE(w, req)]; [flusher] tells whether the response
    writer is an [http.Flusher]. *)
Definition handleOAuthSSE (configs : string + gmap string BrandConfig)
    (flusher : bool) (req : OAuthRequest) (w : World) : Written * World :=
  if negb flusher
  then (JSON (sendError "SSE not supported" StatusInternalServerError), w)
  else
    let '(r, steps, w') := performOAuth configs req true w in
    let progress_events := map (sse_event "progress" "message") steps in
    match r with
    | Err e =>
        (EventStream (progress_events ++ [sse_event "error" "message" e]), w')
    | Ok code =>
        (EventStream (progress_events ++ [sse_event "success" "code" code]),
         w')
    end.

Definition handleOAuth (configs : string + gmap string BrandConfig)
    (flusher : bool) (r : Request) (w : World) : Written * World :=
  if negb (String.eqb (Method r) MethodPost)
  then (JSON (sendError "Method not allowed" StatusMethodNotAllowed), w)
  else
    match Decoded r with
    | None => (JSON (sendError "Invalid request body" StatusBadRequest), w)
    | Some req =>
        if negb (nonempty (Brand req)) || negb (nonempty (Country req))
           || negb (nonempty (Email req)) || negb (nonempty (Password req))
        then (JSON (sendError "All fields are required" StatusBadRequest),
              w)
        else if String.eqb (Accept r) "text/event-stream"
        then handleOAuthSSE configs flusher req w
        else
          match performOAuth configs req false w with
          | (Err e, _, w') => (JSON (sendError e StatusBadRequest), w')
          | (Ok code, _, w') => (JSON (sendSuccess code), w')
          end
    end.
End Flow.

End Browser.

(** ** A model of net/url's query handling

    Enough of [url.Parse], [URL.Query] and [Values.Get] to run the flows
    on concrete URLs: [Parse] cuts the fragment, rejects control bytes
    and keeps the raw query (Go's checks of the authority and of the
    path's escapes are left out); [ParseQuery] and [QueryUnescape] are
    followed statement by statement. *)

Module neturl.

(** [strings.Cut(s, sep)] for a one-byte separator, without its third
    result. *)
Fixpoint Cut (s : string) (sep : ascii) : string * string :=
  match s with
  | EmptyString => (EmptyString, EmptyString)
  | String c s' =>
      if Ascii.eqb c sep then (EmptyString, s')
      else let '(before, after) := Cut s' sep in (String c before, after)
  end.

Definition is_CTL (c : ascii) : bool :=
  let n := nat_of_ascii c in ((n <? 32) || (n =? 127))%nat.

Fixpoint stringContainsCTLByte (s : string) : bool :=
  match s with
  | EmptyString => false
  | String c s' => is_CTL c || stringContainsCTLByte s'
  end.

Definition unhex (c : ascii) : option nat :=
  let n := nat_of_ascii c in
  if ((48 <=? n) && (n <=? 57))%nat then Some (n - 48)%nat
  else if ((97 <=? n) && (n <=? 102))%nat then Some (n - 97 + 10)%nat
  else if ((65 <=? n) && (n <=? 70))%nat then Some (n - 65 + 10)%nat
  else None.

(** [url.QueryUnescape(s)]; [None] for an [EscapeError]. *)
Fixpoint QueryUnescape (s : string) : option string :=
  match s with
  | EmptyString => Some EmptyString
  | String "%" (String h (String l rest)) =>
      match unhex h, unhex l with
      | Some a, Some b =>
          option_map (String (ascii_of_nat (16 * a + b)))
            (QueryUnescape rest)
      | _, _ => None
      end
  | String "%" _ => None
  | String "+" rest => option_map (String " ") (QueryUnescape rest)
  | String c rest => option_map (String c) (QueryUnescape rest)
  end.

(** The pieces of [query] between ampersands, in order. *)
Fixpoint pieces (query : string) : list string :=
  match query with
  | EmptyString => [EmptyString]
  | String c rest =>
      if Ascii.eqb c "&" then EmptyString :: pieces rest
      else
        match pieces rest with
        | p :: ps => String c p :: ps
        | [] => [String c EmptyString]
        end
  end.

(** The loop body of [parseQuery] on one piece: the key and value it
    appends, if any. *)
Definition parse_piece (piece : string) : option (string * string) :=
  if strings.Contains piece ";" then None
  else if negb (nonempty piece) then None
  else
    let '(key, value) := Cut piece "=" in
    match QueryUnescape key with
    | None => None
    | Some key =>
        match QueryUnescape value with
        | None => None
        | Some value => Some (key, value)
        end
    end.

(** [url.ParseQuery(query)] without its error: [Values] as the list
    of the pairs in order of appearance. *)
Definition ParseQuery (query : string) : list (string * string) :=
  omap parse_piece (pieces query).

(** [Values.Get(key)]: the first value of [key], or empty. *)
Fixpoint Get (values : list (string * string)) (key : string) : string :=
  match values with
  | [] => EmptyString
  | (k, v) :: rest => if String.eqb k key then v else Get rest key
  end.

(** The field of [url.URL] that [Query] reads. *)
Record ParsedURL : Type := { RawQuery : string }.

Definition Parse (rawURL : string) : string + ParsedURL :=
  let '(u, _) := Cut rawURL "#" in
  if stringContainsCTLByte u
  then inl "net/url: invalid control character in URL"
  else let '(_, query) := Cut u "?" in inr {| RawQuery := query |}.

Definition model : NetURL :=
  {| URL := ParsedURL;
     url_Parse := Parse;
     Query_Get := fun u key => Get (ParseQuery (RawQuery u)) key |}.

End neturl.

(** ** Configurations up to their client secrets *)

Definition withClientSecret (secret : string) (c : CountryConfig)
    : CountryConfig :=
  {| Locale := Locale c; ClientID := ClientID c; ClientSecret := secret |}.

Definition redactCountry : CountryConfig -> CountryConfig :=
  withClientSecret "".

Definition redactBrand (b : BrandConfig) : BrandConfig :=
  {| OAuthURL := OAuthURL b; Realm := Realm b; Scheme := Scheme b;
     Configs := redactCountry <$> Configs b |}.

(** The configuration with every client secret blanked: two
    configurations with the same redaction differ in client secrets
    only. *)
Definition redact (configs : gmap string BrandConfig)
    : gmap string BrandConfig :=
  redactBrand <$> configs.

(** ** What the flows promise their callers *)

(** A result that says something: a success has a code, a failure has
    a message. *)
Definition filled (r : result) : Prop :=
  match r with
  | Ok code => code <> ""
  | Err message => message <> ""
  end.

(** The calls a client of the manual variant receives, in order. *)
Inductive Call : Type :=
| ConfigsCall
| GetCall (u : string)
| PostCall (u : string) (form : gmap string string).

(** The client [C] with a record of every call made to it. *)
Definition traced {World : Type} (C : http.Client World)
    : http.Client (World * list Call) :=
  {| http.Get_configs := fun '(w, calls) =>
       let '(r, w') := http.Get_configs w in (r, (w', calls ++ [ConfigsCall]));
     http.client_Get := fun scheme u '(w, calls) =>
       let '(r, w') := http.client_Get scheme u w in
       (r, (w', calls ++ [GetCall u]));
     http.client_Post := fun scheme u form '(w, calls) =>
       let '(r, w') := http.client_Post scheme u form w in
       (r, (w', calls ++ [PostCall u form])) |}.

(** The browser [B] with a record of the task lists it ran. *)
Definition watched {World : Type} (B : chromedp.Browser World)
    : chromedp.Browser (World * list chromedp.Tasks) :=
  {| chromedp.Run := fun t '(w, ran) =>
       let '(o, w') := chromedp.Run t w in (o, (w', ran ++ [t])) |}.

Section Progress.
Context {N : NetURL} {World : Type} {B : chromedp.Browser World}.
Import chromedp Browser.

(** The steps [performChromedpOAuth] reports when the code arrives with
    the login, and when it goes on to the confirmation page. *)
Definition steps_with_code : list string :=
  ["Starting browser..."; "Loading login page..."; "Waiting for login form...";
   "Entering credentials..."; "Submitting login...";
   "Authentication successful!"].

Definition steps_with_confirmation : list string :=
  ["Starting browser..."; "Loading login page..."; "Waiting for login form...";
   "Entering credentials..."; "Submitting login...";
   "Waiting for authorization..."; "Confirming authorization..."].

(** What may have been reported when the flow returns: with a callback,
    a non-empty initial part of one of the two step sequences; without
    one, nothing. *)
Definition in_step_order (progress : bool) (steps : list string) : Prop :=
  if progress
  then steps <> []
       /\ (steps `prefix_of` steps_with_code
           \/ steps `prefix_of` steps_with_confirmation)
  else steps = [].

(** From any of the report lists [before], the computation returns with
    reports in step order or goes on with one of the lists [after]. *)
Definition reports (progress : bool) (before after : list (list string))
    {A : Type} (m : M World A) : Prop :=
  forall st w,
    reported st ∈ before ->
    match m st w with
    | (Return _, st', _) => in_step_order progress (reported st')
    | (Next _, st', _) => reported st' ∈ after
    end.

(** A computation whose every [return] is filled. *)
Definition returns_filled {A : Type} (m : M World A) : Prop :=
  forall st w r st' w', m st w = (Return r, st', w') -> filled r.
End Progress.

(** ** Concrete inputs used in examples *)

Module Examples.
Import chromedp.

Definition peugeot_gb : CountryConfig :=
  {| Locale := "en-GB"; ClientID := "1eebc2d5"; ClientSecret := "T5tP7iS0" |}.

Definition peugeot : BrandConfig :=
  {| OAuthURL := "https://idpcvs.peugeot.com";
     Realm := "clientsB2CPeugeot";
     Scheme := "mymap";
     Configs := {[ "GB" := peugeot_gb ]} |}.

Definition configs : gmap string BrandConfig := {[ "MyPeugeot" := peugeot ]}.

(** The same configuration with another client secret. *)
Definition configs' : gmap string BrandConfig :=
  {[ "MyPeugeot" :=
       {| OAuthURL := "https://idpcvs.peugeot.com";
          Realm := "clientsB2CPeugeot";
          Scheme := "mymap";
          Configs := {[ "GB" := withClientSecret "other" peugeot_gb ]} |} ]}.

Definition request : OAuthRequest :=
  {| Brand := "MyPeugeot"; Country := "GB"; Email := "driver@example.org";
     Password := "hunter2" |}.

Definition request_without_password : OAuthRequest :=
  {| Brand := "MyPeugeot"; Country := "GB"; Email := "driver@example.org";
     Password := "" |}.

Definition post (req : OAuthRequest) : Request :=
  {| Method := "POST"; Accept := "application/json"; Decoded := Some req |}.

(** Two redirect requests of one session, with different codes. *)
Definition two_redirects : list Event :=
  [ EventRequestWillBeSent "mymap://oauth2redirect/gb?code=first";
    EventRequestWillBeSent "mymap://oauth2redirect/gb?code=second" ].

(** A login response (status 200) whose body has a script redirect
    and the word "error". *)
Definition script_and_error : http.Response :=
  {| http.StatusCode := 200;
     http.Location := "";
     http.Body :=
       "<script>window.location = 'https://idp.example/next'</script><p>no error</p>";
     http.BodyErr := None |}.

(** A network, counting the requests made, where the configuration
    cannot be fetched and every page redirects to itself by script. *)
Definition looping : http.Client nat :=
  {| http.Get_configs := fun n =>
       (http.FetchErr "dial tcp: i/o timeout", S n);
     http.client_Get := fun _ _ n =>
       (inr {| http.StatusCode := 200;
               http.Location := "";
               http.Body :=
                 "<script>location.href='https://idp.example/again'</script>";
               http.BodyErr := None |}, S n);
     http.client_Post := fun _ _ _ n => (http.DoErr "EOF", S n) |}.

(** A network where every URL redirects to the custom scheme with a
    code. *)
Definition redirecting : http.Client nat :=
  {| http.Get_configs := fun n =>
       (http.FetchErr "dial tcp: i/o timeout", S n);
     http.client_Get := fun _ _ n =>
       (inr {| http.StatusCode := 302;
               http.Location := "mymap://oauth2redirect/gb?code=abc123";
               http.Body := "";
               http.BodyErr := None |}, S n);
     http.client_Post := fun _ _ _ n => (http.DoErr "EOF", S n) |}.

(** A browser, counting the runs, where every task succeeds, no event
    is emitted and every string read is empty. *)
Definition quiet : Browser nat :=
  {| Run := fun _ n => ({| events := []; err := None; out := "" |}, S n) |}.

(** A browser where the click on submit triggers the two redirect
    requests. *)
Definition double_redirect : Browser nat :=
  {| Run := fun t n =>
       ({| events := match t with
                     | ClickSubmit => two_redirects
                     | _ => []
                     end;
           err := None; out := "" |}, S n) |}.

(** A network, recording the URLs requested, where the configuration
    is served, the authorization page is a login form with one hidden
    field, and the login is answered by a redirect to the custom scheme. *)
Definition portal : http.Client (list string) :=
  {| http.Get_configs := fun log =>
       (http.Fetched configs, log ++ ["configs"]);
     http.client_Get := fun _ u log =>
       (inr {| http.StatusCode := 200;
               http.Location := "";
               http.Body :=
                 Manual.form_tag "/login"
                 +:+ Manual.hidden_then_name "goto" "aHR0cHM6";
               http.BodyErr := None |}, log ++ [u]);
     http.client_Post := fun _ u _ log =>
       (http.Posted
          {| http.StatusCode := 302;
             http.Location := "mymap://oauth2redirect/gb?code=abc123";
             http.Body := "";
             http.BodyErr := None |}, log ++ [u]) |}.

(** A network where the authorization page has no form. *)
Definition formless : http.Client nat :=
  {| http.Get_configs := fun n => (http.Fetched configs, S n);
     http.client_Get := fun _ _ n =>
       (inr {| http.StatusCode := 200;
               http.Location := "";
               http.Body := "<html><body>Service unavailable</body></html>";
               http.BodyErr := None |}, S n);
     http.client_Post := fun _ _ _ n => (http.DoErr "EOF", S n) |}.

(** A network where the first page redirects by header to a second
    one, which cannot be reached. *)
Definition broken_hop : http.Client nat :=
  {| http.Get_configs := fun n =>
       (http.FetchErr "dial tcp: i/o timeout", S n);
     http.client_Get := fun _ u n =>
       if String.eqb u "https://idp.example/start"
       then (inr {| http.StatusCode := 302;
                    http.Location := "https://idp.example/next";
                    http.Body := "";
                    http.BodyErr := None |}, S n)
       else (inl "connection refused", S n);
     http.client_Post := fun _ _ _ n => (http.DoErr "EOF", S n) |}.

(** A browser where the login form never shows. *)
Definition stuck : Browser nat :=
  {| Run := fun t n =>
       ({| events := [];
           err := match t with
                  | WaitVisibleEmail => Some "context deadline exceeded"
                  | _ => None
                  end;
           out := "" |}, S n) |}.

(** A login answered by a page that says nothing of use. *)
Definition welcome : http.Response :=
  {| http.StatusCode := 200;
     http.Location := "";
     http.Body := "<html><body>Welcome</body></html>";
     http.BodyErr := None |}.

(** A request with another method, one whose body does not decode,
    and one for a brand that is not configured. *)
Definition get : Request :=
  {| Method := "GET"; Accept := ""; Decoded := None |}.

Definition garbled : Request :=
  {| Method := "POST"; Accept := "application/json"; Decoded := None |}.

Definition request_for_lada : OAuthRequest :=
  {| Brand := "Lada"; Country := "GB"; Email := "driver@example.org";
     Password := "hunter2" |}.

End Examples.

(** * Properties *)

#[local] Arguments String.append !_ _ : simpl nomatch.

(** ** Strings *)

Lemma append_nil_r (s : string) : s +:+ "" = s.
Proof. induction s as [|c s IH]; simpl; [reflexivity | now rewrite IH]. Qed.


Lemma length_append (a b : string) :
  String.length (a +:+ b) = (String.length a + String.length b)%nat.
Proof. induction a as [|x a IH]; simpl; [reflexivity | now rewrite IH]. Qed.

Lemma nonempty_false (s : string) : nonempty s = false <-> s = "".
Proof. destruct s; simpl; split; intros; congruence. Qed.

Lemma nonempty_true (s : string) : nonempty s = true <-> s <> "".
Proof. destruct s; simpl; split; intros; congruence. Qed.





(** ** Escaping *)




(** ** The authorization URL *)






(** ** The client secret *)

Lemma authURL_redact (b : BrandConfig) (c : CountryConfig) (country : string) :
  authURL (redactBrand b) (redactCountry c) country = authURL b c country.
Proof. reflexivity. Qed.

Lemma redact_lookup (configs1 configs2 : gmap string BrandConfig)
    (brand : string) :
  redact configs1 = redact configs2 ->
  redactBrand <$> (configs1 !! brand) = redactBrand <$> (configs2 !! brand).
Proof.
  intros Heq. unfold redact in Heq.
  rewrite <- !lookup_fmap. now rewrite Heq.
Qed.

Lemma redactBrand_lookup (b1 b2 : BrandConfig) (country : string) :
  redactBrand b1 = redactBrand b2 ->
  redactCountry <$> (Configs b1 !! country)
  = redactCountry <$> (Configs b2 !! country).
Proof.
  intros Heq. apply (f_equal Configs) in Heq. simpl in Heq.
  rewrite <- !lookup_fmap. now rewrite Heq.
Qed.

(** Configurations that agree up to client secrets give the same lookup
    errors, the same custom scheme and the same authorization URL. *)
Lemma lookupConfig_redact (configs1 configs2 : gmap string BrandConfig)
    (req : OAuthRequest) :
  redact configs1 = redact configs2 ->
  match lookupConfig configs1 req, lookupConfig configs2 req with
  | inr (b1, c1), inr (b2, c2) =>
      Scheme b1 = Scheme b2
      /\ authURL b1 c1 (Country req) = authURL b2 c2 (Country req)
  | inl e1, inl e2 => e1 = e2
  | _, _ => False
  end.
Proof.
  intros Heq. unfold lookupConfig.
  pose proof (redact_lookup _ _ (Brand req) Heq) as Hb.
  destruct (configs1 !! Brand req) as [b1|], (configs2 !! Brand req) as [b2|];
    try discriminate; [|reflexivity].
  assert (Hb' : redactBrand b1 = redactBrand b2)
    by (apply (inj Some); exact Hb).
  clear Hb. rename Hb' into Hb.
  pose proof (redactBrand_lookup _ _ (Country req) Hb) as Hc.
  destruct (Configs b1 !! Country req) as [c1|],
           (Configs b2 !! Country req) as [c2|];
    try discriminate; [|reflexivity].
  assert (Hc' : redactCountry c1 = redactCountry c2)
    by (apply (inj Some); exact Hc).
  clear Hc. rename Hc' into Hc. split.
  - exact (f_equal Scheme Hb).
  - rewrite <- (authURL_redact b1 c1), <- (authURL_redact b2 c2).
    now rewrite Hb, Hc.
Qed.

(** C4. The client secret never reaches the authorization URL: changing
    the secret of a country configuration leaves the URL unchanged, and
    two configurations that differ in client secrets only give, for
    every request, the same URL (or the same lookup error) and the same
    run of [performOAuth] against every browser. *)
Theorem authURL_independent_of_clientSecret
    (configs1 configs2 : gmap string BrandConfig) (req : OAuthRequest) :
  redact configs1 = redact configs2 ->
  (forall (b : BrandConfig) (c : CountryConfig) (secret country : string),
      authURL b (withClientSecret secret c) country = authURL b c country)
  /\ match lookupConfig configs1 req, lookupConfig configs2 req with
     | inr (b1, c1), inr (b2, c2) =>
         authURL b1 c1 (Country req) = authURL b2 c2 (Country req)
     | inl e1, inl e2 => e1 = e2
     | _, _ => False
     end
  /\ forall (N : NetURL) (World : Type) (B : chromedp.Browser World)
       (progress : bool) (w : World),
       Browser.performOAuth (inr configs1) req progress w
       = Browser.performOAuth (inr configs2) req progress w.
Proof.
  intros Heq. pose proof (lookupConfig_redact _ _ req Heq) as Hl.
  split; [reflexivity|]. split.
  - destruct (lookupConfig configs1 req) as [e1|[b1 c1]],
             (lookupConfig configs2 req) as [e2|[b2 c2]]; tauto.
  - intros N World B progress w. unfold Browser.performOAuth.
    destruct (lookupConfig configs1 req) as [e1|[b1 c1]],
             (lookupConfig configs2 req) as [e2|[b2 c2]];
      try contradiction.
    + now subst.
    + destruct Hl as [-> ->]. reflexivity.
Qed.

(** ** The handlers *)

Lemma eqb_MethodPost (m : string) :
  m = MethodPost -> negb (String.eqb m MethodPost) = false.
Proof. intros ->. now rewrite String.eqb_refl. Qed.

Definition all_present (req : OAuthRequest) : Prop :=
  Brand req <> "" /\ Country req <> "" /\ Email req <> ""
  /\ Password req <> "".

Lemma validation_passes (req : OAuthRequest) :
  all_present req ->
  negb (nonempty (Brand req)) || negb (nonempty (Country req))
  || negb (nonempty (Email req)) || negb (nonempty (Password req)) = false.
Proof.
  intros (Hb & Hc & He & Hp).
  apply nonempty_true in Hb, Hc, He, Hp. now rewrite Hb, Hc, He, Hp.
Qed.

Lemma validation_fails (req : OAuthRequest) :
  Brand req = "" \/ Country req = "" \/ Email req = "" \/ Password req = "" ->
  negb (nonempty (Brand req)) || negb (nonempty (Country req))
  || negb (nonempty (Email req)) || negb (nonempty (Password req)) = true.
Proof.
  intros [E|[E|[E|E]]]; rewrite E; simpl;
    rewrite ?orb_true_r; reflexivity.
Qed.

(** C8. A POST to /oauth whose decoded body has an empty brand, country,
    email or password is answered with status 400 and the JSON error
    "All fields are required", in both variants, whatever the network,
    the browser and the configuration are, and leaves them as they
    were: neither the configuration lookup nor the automation runs. *)
Theorem missing_field_rejected_before_automation (req : OAuthRequest)
    (accept : string) :
  Brand req = "" \/ Country req = "" \/ Email req = "" \/ Password req = "" ->
  let r := {| Method := "POST"; Accept := accept; Decoded := Some req |} in
  let rejected :=
    {| StatusCode := 400; ContentType := "application/json";
       Body := {| Status := "error"; Message := "All fields are required";
                  Data := None |} |} in
  (forall (N : NetURL) (World : Type) (C : http.Client World) (w : World),
      Manual.handleOAuth r w = (rejected, w))
  /\ (forall (N : NetURL) (World : Type) (B : chromedp.Browser World)
        (configs : string + gmap string BrandConfig) (flusher : bool)
        (w : World),
        Browser.handleOAuth configs flusher r w = (Browser.JSON rejected, w)).
Proof.
  intros Hempty r rejected. apply validation_fails in Hempty.
  split; intros; unfold Manual.handleOAuth, Browser.handleOAuth; simpl;
    rewrite Hempty; reflexivity.
Qed.

(** C9. In the non-streaming /oauth handler of both variants every
    error of [performOAuth], whatever its origin, becomes status 400
    with the JSON body [{status: "error", message: <the error text>}];
    the handler's error responses carry 405 exactly when the method is
    not POST and 400 otherwise, and its only other status is the 200 of
    a success; it never answers with a 5xx status. *)
Theorem performOAuth_errors_surface_as_400 (r : Request) (req : OAuthRequest) :
  Method r = "POST" ->
  Decoded r = Some req ->
  all_present req ->
  (forall (N : NetURL) (World : Type) (C : http.Client World) (w w' : World)
          (e : string),
      Manual.performOAuth req w = (Err e, w') ->
      Manual.handleOAuth r w =
      ({| StatusCode := 400; ContentType := "application/json";
          Body := {| Status := "error"; Message := e; Data := None |} |}, w'))
  /\ (forall (N : NetURL) (World : Type) (B : chromedp.Browser World)
        (configs : string + gmap string BrandConfig) (flusher : bool)
        (w w' : World) (e : string) (steps : list string),
        Accept r <> "text/event-stream" ->
        Browser.performOAuth configs req false w = (Err e, steps, w') ->
        Browser.handleOAuth configs flusher r w =
        (Browser.JSON
           {| StatusCode := 400; ContentType := "application/json";
              Body := {| Status := "error"; Message := e; Data := None |} |},
         w'))
  /\ (forall (N : NetURL) (World : Type) (C : http.Client World)
        (r0 : Request) (w : World),
        let resp := fst (Manual.handleOAuth r0 w) in
        (Method r0 <> "POST" -> StatusCode resp = 405)
        /\ (Method r0 = "POST" ->
            (Status (Body resp) = "error" /\ StatusCode resp = 400)
            \/ (Status (Body resp) = "success" /\ StatusCode resp = 200)))
  /\ (forall (N : NetURL) (World : Type) (B : chromedp.Browser World)
        (configs : string + gmap string BrandConfig) (flusher : bool)
        (r0 : Request) (w : World),
        Accept r0 <> "text/event-stream" ->
        exists resp,
          fst (Browser.handleOAuth configs flusher r0 w) = Browser.JSON resp
          /\ (Method r0 <> "POST" -> StatusCode resp = 405)
          /\ (Method r0 = "POST" ->
              (Status (Body resp) = "error" /\ StatusCode resp = 400)
              \/ (Status (Body resp) = "success" /\ StatusCode resp = 200))).
Proof.
  intros Hpost Hdec Hall.
  pose proof (validation_passes req Hall) as Hv.
  split; [|split; [|split]].
  - intros N World C w w' e Hrun. unfold Manual.handleOAuth.
    rewrite (eqb_MethodPost _ Hpost), Hdec, Hv, Hrun. reflexivity.
  - intros N World B configs flusher w w' e steps Hacc Hrun.
    unfold Browser.handleOAuth.
    rewrite (eqb_MethodPost _ Hpost), Hdec, Hv.
    apply String.eqb_neq in Hacc. rewrite Hacc, Hrun. reflexivity.
  - intros N World C r0 w resp. subst resp. unfold Manual.handleOAuth.
    destruct (String.eqb (Method r0) MethodPost) eqn:Hm; simpl.
    + apply String.eqb_eq in Hm. unfold MethodPost in Hm.
      split; [congruence|intros _].
      destruct (Decoded r0) as [req0|]; [|left; split; reflexivity].
      match goal with |- context [if ?b then _ else _] => destruct b end;
        [left; split; reflexivity|].
      destruct (Manual.performOAuth req0 w) as [[code|e] w'];
        [right|left]; split; reflexivity.
    + apply String.eqb_neq in Hm.
      split; [reflexivity | intros Hp; contradiction].
  - intros N World B configs flusher r0 w Hacc.
    apply String.eqb_neq in Hacc. unfold Browser.handleOAuth.
    destruct (String.eqb (Method r0) MethodPost) eqn:Hm; simpl.
    + apply String.eqb_eq in Hm. unfold MethodPost in Hm.
      destruct (Decoded r0) as [req0|].
      * match goal with |- context [if ?b then _ else _] => destruct b end.
        -- eexists; split; [reflexivity|].
           split; [congruence | intros _; left; split; reflexivity].
        -- rewrite Hacc.
           destruct (Browser.performOAuth configs req0 false w)
             as [[[code|e] steps] w'];
             eexists; (split; [reflexivity|]);
             (split; [congruence|intros _]);
             [right|left]; split; reflexivity.
      * eexists; split; [reflexivity|].
        split; [congruence | intros _; left; split; reflexivity].
    + apply String.eqb_neq in Hm.
      eexists; split; [reflexivity|].
      split; [reflexivity | intros Hp; contradiction].
Qed.

(** ** The listener of the browser-driven variant *)

Section ListenerFacts.
Context {N : NetURL}.
Import chromedp Browser.

Lemma listener_carried (redirectPrefix : string) (st : State) (ev : Event) :
  listener redirectPrefix st ev =
  match carried_code redirectPrefix ev with
  | Some code => set_oauthCode code st
  | None => st
  end.
Proof.
  destruct ev as [reqURL| |]; simpl; try reflexivity.
  destruct (strings.HasPrefix reqURL redirectPrefix); [|reflexivity].
  destruct (url_Parse reqURL) as [e|parsed]; [reflexivity|].
  destruct (nonempty (Query_Get parsed "code")); reflexivity.
Qed.

Lemma listener_authError (redirectPrefix : string) (st : State) (ev : Event) :
  authError (listener redirectPrefix st ev) = authError st
  /\ reported (listener redirectPrefix st ev) = reported st.
Proof.
  rewrite listener_carried.
  destruct (carried_code redirectPrefix ev); split; reflexivity.
Qed.

Lemma deliver_authError (redirectPrefix : string) (evs : list Event)
    (st : State) :
  authError (deliver redirectPrefix st evs) = authError st
  /\ reported (deliver redirectPrefix st evs) = reported st.
Proof.
  revert st. induction evs as [|ev evs IH]; intros st; [split; reflexivity|].
  unfold deliver in *. simpl.
  destruct (IH (listener redirectPrefix st ev)) as [-> ->].
  apply listener_authError.
Qed.

Lemma default_last_cons (d code : string) (l : list string) :
  default d (last (code :: l)) = default code (last l).
Proof. rewrite last_cons. now destruct (last l). Qed.

Lemma deliver_oauthCode (redirectPrefix : string) (evs : list Event)
    (st : State) :
  oauthCode (deliver redirectPrefix st evs)
  = last_capture redirectPrefix (oauthCode st) evs.
Proof.
  revert st. unfold deliver, last_capture.
  induction evs as [|ev evs IH]; intros st; [reflexivity|].
  simpl. rewrite IH, listener_carried.
  destruct (carried_code redirectPrefix ev) as [code|]; [|reflexivity].
  simpl. symmetry. apply default_last_cons.
Qed.
End ListenerFacts.

(** C1, as the listener has it. Every request event whose URL has the
    custom-scheme prefix, parses and carries a non-empty [code]
    overwrites the captured code: after a sequence of events the
    captured code is that of the last such event, and the earlier value
    when there is none; a single carrying event sets it, any other
    event leaves it alone; the listener changes nothing else. *)
Theorem listener_last_code_wins {N : NetURL} (redirectPrefix : string)
    (st : Browser.State) (evs : list chromedp.Event) :
  Browser.oauthCode (Browser.deliver redirectPrefix st evs)
  = Browser.last_capture redirectPrefix (Browser.oauthCode st) evs
  /\ Browser.authError (Browser.deliver redirectPrefix st evs)
     = Browser.authError st
  /\ Browser.reported (Browser.deliver redirectPrefix st evs)
     = Browser.reported st
  /\ forall ev : chromedp.Event,
       Browser.oauthCode (Browser.listener redirectPrefix st ev)
       = default (Browser.oauthCode st)
           (Browser.carried_code redirectPrefix ev).
Proof.
  split; [apply deliver_oauthCode|].
  split; [apply deliver_authError|].
  split; [apply deliver_authError|].
  intros ev. rewrite listener_carried.
  now destruct (Browser.carried_code redirectPrefix ev).
Qed.

(** ** The flow of the browser-driven variant *)

Section FlowFacts.
Context {N : NetURL} {World : Type} {B : chromedp.Browser World}.
Import chromedp Browser.

Lemma returns_return_ {A : Type} (r : result) :
  returns (return_ (World := World) (A := A) r).
Proof. intros st w a st' w'. unfold return_. congruence. Qed.

Lemma returns_bind {X Y : Type} (m : M World X) (k : X -> M World Y) :
  (forall a, returns (k a)) -> returns (bind m k).
Proof.
  intros Hk st w b st' w'. unfold bind.
  destruct (m st w) as [[[r|a] st1] w1]; [congruence | apply Hk].
Qed.

Lemma keeps_returns {A : Type} (m : M World A) :
  returns m -> keeps_authError m.
Proof. intros Hm st w a st' w' _ Hrun. now apply Hm in Hrun. Qed.

Lemma keeps_ret {A : Type} (a : A) : keeps_authError (ret (World := World) a).
Proof. intros st w a' st' w' He Hrun. unfold ret in Hrun. congruence. Qed.

Lemma keeps_bind {X Y : Type} (m : M World X) (k : X -> M World Y) :
  keeps_authError m -> (forall a, keeps_authError (k a)) ->
  keeps_authError (bind m k).
Proof.
  intros Hm Hk st w b st' w' He Hrun. unfold bind in Hrun.
  destruct (m st w) as [[[r|a] st1] w1] eqn:E; [congruence|].
  eapply Hk; [|exact Hrun]. eapply Hm; [exact He | exact E].
Qed.

Lemma keeps_report (progress : bool) (step : string) :
  keeps_authError (report (World := World) progress step).
Proof.
  intros st w a st' w' He Hrun. unfold report in Hrun.
  injection Hrun as _ <- _. now destruct progress.
Qed.

Lemma keeps_run (redirectPrefix : string) (t : Tasks) :
  keeps_authError (run redirectPrefix t).
Proof.
  intros st w a st' w' He Hrun. unfold run in Hrun.
  destruct (Run t w) as [o w1]. injection Hrun as _ <- _.
  now rewrite (proj1 (deliver_authError _ _ _)).
Qed.

Lemma keeps_get_oauthCode : keeps_authError (get_oauthCode (World := World)).
Proof.
  intros st w a st' w' He Hrun. unfold get_oauthCode in Hrun. congruence.
Qed.

Lemma keeps_check (e : option string) (format : string) :
  keeps_authError (check (World := World) e format).
Proof.
  destruct e; simpl; [apply keeps_returns, returns_return_ | apply keeps_ret].
Qed.

(** The only assignment to [authError] is on a path that returns. *)
Lemma keeps_flow (authURL email password scheme : string) (progress : bool) :
  keeps_authError (flow authURL email password scheme progress).
Proof.
  unfold flow.
  repeat first
    [ apply keeps_report | apply keeps_run | apply keeps_check
    | apply keeps_get_oauthCode | apply keeps_ret
    | solve [ apply keeps_returns;
              repeat (apply returns_bind; intros ?);
              apply returns_return_ ]
    | apply keeps_bind; [|intros ?]
    | match goal with
      | |- keeps_authError (match ?x with _ => _ end) => destruct x
      end ].
Qed.
End FlowFacts.

(** C10. In [performChromedpOAuth] the branch that returns
    "authentication failed: <authError>" is never taken: [authError] is
    assigned only where the login form did not appear, and that path
    returns at once; so whenever the flow reaches the final check
    [authError] is empty and the check yields the generic "could not
    retrieve OAuth code" error. The result of the function is either
    what an earlier [return] gave or that generic error. *)
Theorem authError_branch_unreachable {N : NetURL} {World : Type}
    {B : chromedp.Browser World} (authURL email password scheme : string)
    (progress : bool) (w : World) :
  let generic := Err "authentication failed - could not retrieve OAuth code" in
  (forall st' w',
      Browser.flow authURL email password scheme progress Browser.initial w
      = (Browser.Next tt, st', w') ->
      Browser.authError st' = ""
      /\ Browser.finalCheck st' w' = (Browser.Return generic, st', w'))
  /\ Browser.performChromedpOAuth authURL email password scheme progress w
     = match Browser.flow authURL email password scheme progress
               Browser.initial w with
       | (Browser.Return r, st', w') => (r, Browser.reported st', w')
       | (Browser.Next _, st', w') => (generic, Browser.reported st', w')
       end.
Proof.
  intros generic.
  assert (Hfinal : forall st' w',
             Browser.flow authURL email password scheme progress
               Browser.initial w = (Browser.Next tt, st', w') ->
             Browser.authError st' = ""
             /\ Browser.finalCheck st' w' = (Browser.Return generic, st', w')).
  { intros st' w' Hrun.
    assert (He : Browser.authError st' = "")
      by (eapply keeps_flow; [|exact Hrun]; reflexivity).
    split; [exact He|]. unfold Browser.finalCheck. now rewrite He. }
  split; [exact Hfinal|].
  unfold Browser.performChromedpOAuth, Browser.bind.
  destruct (Browser.flow _ _ _ _ _ _ _) as [[[r|[]] st'] w'] eqn:E;
    [reflexivity|].
  destruct (Hfinal _ _ eq_refl) as [_ ->]. reflexivity.
Qed.

(** ** The manual variant after the login POST *)

(** C2, as [performOAuth] has it. When the [Location] header of the
    login response does not begin with the custom scheme: a 3xx response
    is followed from that header; any other response is first searched
    for "error" and "invalid" and, if either occurs, fails with the
    credential error without a further request, whether or not its body
    has a script or meta-refresh redirect; only a body with neither
    word is searched for such a redirect, which is then followed, and
    without one the flow fails as incomplete. *)
Theorem afterLogin_order {N : NetURL} {World : Type} {C : http.Client World}
    (loginResp : http.Response) (scheme : string) (w : World) :
  strings.HasPrefix (http.Location loginResp) (scheme +:+ "://") = false ->
  let body := http.Body loginResp in
  let redirect := Manual.is_redirect_status (http.StatusCode loginResp) in
  let flagged :=
    strings.Contains body "error" || strings.Contains body "invalid" in
  (redirect = true ->
   Manual.afterLogin loginResp scheme w
   = Manual.followRedirects (http.Location loginResp) scheme w)
  /\ (redirect = false -> flagged = true ->
      Manual.afterLogin loginResp scheme w
      = (Err "authentication failed - please check your credentials", w))
  /\ (redirect = false -> flagged = false ->
      Manual.extractRedirectURL body <> "" ->
      Manual.afterLogin loginResp scheme w
      = Manual.followRedirects (Manual.extractRedirectURL body) scheme w)
  /\ (redirect = false -> flagged = false ->
      Manual.extractRedirectURL body = "" ->
      Manual.afterLogin loginResp scheme w
      = (Err "authentication failed - could not complete OAuth flow", w)).
Proof.
  intros Hloc body redirect flagged. unfold Manual.afterLogin.
  rewrite Hloc, andb_false_r. fold body. fold redirect. fold flagged.
  repeat split.
  - intros ->. reflexivity.
  - intros -> ->. reflexivity.
  - intros -> -> Hr. apply nonempty_true in Hr. now rewrite Hr.
  - intros -> -> Hr. apply nonempty_false in Hr. now rewrite Hr.
Qed.

(** ** Following redirects *)

Section FollowFacts.
Context {N : NetURL} {World : Type} (C : http.Client World).
Import Manual.



End FollowFacts.


(** ** The authorization URL in the two variants *)



(** ** The pattern matcher *)

Section MatcherFacts.
Import regexp.
Context {R : Type}.
Implicit Types (p : ascii -> bool) (K : string -> option R) (r : Regexp)
  (k : string -> list string -> option R).




Lemma star_greedy_through p K a rest x :
  all_chars p a = true -> star_greedy p K rest = Some x ->
  star_greedy p K (a +:+ rest) = Some x.
Proof.
  intros Ha Hr. induction a as [|c a IH]; simpl in *; [exact Hr|].
  apply andb_true_iff in Ha as [Hc Ha]. now rewrite Hc, (IH Ha).
Qed.




Lemma take_app (a rest : string) : take (String.length a) (a +:+ rest) = a.
Proof.
  induction a as [|c a IH]; simpl; [now destruct rest | now rewrite IH].
Qed.

Lemma consumed_app (a rest : string) : consumed (a +:+ rest) rest = a.
Proof.
  unfold consumed. rewrite length_append.
  replace (String.length a + String.length rest - String.length rest)%nat
    with (String.length a) by lia.
  apply take_app.
Qed.





(** *** One step of [run] on a sequence *)

Lemma run_lit_hit l r s s' caps k :
  strip_prefix l s = Some s' ->
  run (Seq (Lit l) r) s caps k = run r s' caps k.
Proof. intros Hs. simpl. now rewrite Hs. Qed.

Lemma run_lit_miss l r s caps k :
  strip_prefix l s = None -> run (Seq (Lit l) r) s caps k = None.
Proof. intros Hs. simpl. now rewrite Hs. Qed.

Lemma run_class_hit p r c s caps k :
  p c = true -> run (Seq (Class p) r) (String c s) caps k = run r s caps k.
Proof. intros Hc. simpl. now rewrite Hc. Qed.


Lemma run_star p r s caps k :
  run (Seq (Star p) r) s caps k
  = star_greedy p (fun s' => run r s' caps k) s.
Proof. reflexivity. Qed.


Lemma run_group_plus n p r c s caps k :
  p c = true ->
  run (Seq (Group n (Plus p)) r) (String c s) caps k
  = star_greedy p
      (fun s' => run r s' (<[n := consumed (String c s) s']> caps) k) s.
Proof. intros Hc. simpl. now rewrite Hc. Qed.






Lemma run_group_plus_through n p r a q rest caps k x :
  a <> "" -> all_chars p a = true -> p q = false ->
  run r (String q rest) (<[n := a]> caps) k = Some x ->
  run (Seq (Group n (Plus p)) r) (a +:+ String q rest) caps k = Some x.
Proof.
  intros Hne Ha Hq Hr. destruct a as [|c a]; [contradiction|].
  pose proof Ha as Ha'. simpl in Ha'. apply andb_true_iff in Ha' as [Hc Ha'].
  simpl String.append. rewrite run_group_plus by exact Hc.
  apply star_greedy_through; [exact Ha'|].
  simpl star_greedy. rewrite Hq.
  change (String c (a +:+ String q rest))
    with (String c a +:+ String q rest).
  now rewrite consumed_app.
Qed.

End MatcherFacts.



(** *** Searching *)

Section SearchFacts.
Import regexp.

Lemma strip_prefix_None (l s : string) :
  strip_prefix l s = None <-> strings.HasPrefix s l = false.
Proof.
  revert s. induction l as [|x l IH]; intros s; simpl; [split; discriminate|].
  destruct s as [|c s]; [split; reflexivity|].
  destruct (Ascii.eqb c x); [apply IH | split; reflexivity].
Qed.

(** A literal whose characters differ from [x] does not reach beyond
    an [x]. *)
Lemma strip_prefix_before (l p : string) (x : ascii) (rest : string) :
  all_chars (fun c => negb (Ascii.eqb x c)) l = true ->
  strings.HasPrefix p l = false ->
  strip_prefix l (p +:+ String x rest) = None.
Proof.
  revert p. induction l as [|y l IH]; intros p Hl Hp; [discriminate|].
  simpl in Hl. apply andb_true_iff in Hl as [Hy Hl].
  destruct p as [|c p]; simpl in *.
  - apply negb_true_iff in Hy. now rewrite Hy.
  - destruct (Ascii.eqb c y); [now apply IH | reflexivity].
Qed.



Lemma find_none r' g (l s : string) :
  strings.Contains s l = false ->
  FindStringSubmatch (Seq (Lit l) r') g s = None.
Proof.
  induction s as [|c s IH]; intros Hc; simpl in Hc.
  - apply orb_false_iff in Hc as [Hp _]. cbn [FindStringSubmatch].
    unfold match_here. rewrite run_lit_miss; [reflexivity|].
    now apply strip_prefix_None.
  - apply orb_false_iff in Hc as [Hp Hc]. cbn [FindStringSubmatch].
    unfold match_here at 1. rewrite run_lit_miss; [now apply IH|].
    now apply strip_prefix_None.
Qed.


Lemma find_all_none r g (s : string) :
  all_reach (fun _ => true) (fun v => match_here r g v = None) s ->
  find_all r g s 0 = [].
Proof.
  induction s as [|c s IH]; simpl; intros [Hm Hs]; rewrite Hm;
    [reflexivity | now apply IH, Hs].
Qed.

End SearchFacts.

(** ** The login form *)

Section FormFacts.
Import regexp Manual.


End FormFacts.


(** ** Hidden fields *)

Section HiddenFacts.
Import regexp Manual.








End HiddenFacts.


(** ** More on following redirects *)

Section FollowMore.
Context {N : NetURL} {World : Type} (C : http.Client World).
Import Manual.

Lemma loop_requests_not_custom (n : nat) (scheme u : string) (w : World)
    (log : list string) :
  exists urls,
    snd (snd (followRedirects_loop (C := logged C) n u scheme (w, log)))
    = log ++ urls
    /\ Forall (fun x => strings.HasPrefix x (scheme +:+ "://") = false) urls.
Proof.
  revert u w log. induction n as [|n IH]; intros u w log.
  - exists []. now rewrite app_nil_r.
  - cbn [followRedirects_loop].
    destruct (strings.HasPrefix u (scheme +:+ "://")) eqn:Hu.
    { exists []. now rewrite app_nil_r. }
    cbn [http.client_Get logged].
    destruct (http.client_Get scheme u w) as [[e|resp] w'].
    { exists [u]. split; [reflexivity | repeat constructor; exact Hu]. }
    destruct (negb (nonempty (next_location resp))).
    { exists [u]. split; [reflexivity | repeat constructor; exact Hu]. }
    destruct (strings.HasPrefix (next_location resp) (scheme +:+ "://")).
    { exists [u]. split; [reflexivity | repeat constructor; exact Hu]. }
    destruct (IH (next_location resp) w' (log ++ [u])) as (urls & Hr & Hf).
    exists (u :: urls). rewrite Hr, <- app_assoc.
    split; [reflexivity | constructor; assumption].
Qed.

(** Clean hops use up one iteration each. *)
Lemma loop_along (k fuel : nat) (scheme u uk : string) (w wk : World) :
  chain k scheme u w ->
  after_hops k scheme u w = Some (uk, wk) ->
  followRedirects_loop (k + fuel) u scheme w
  = followRedirects_loop fuel uk scheme wk.
Proof.
  revert u w. induction k as [|k IH]; intros u w Hc Ha.
  - simpl in Ha. now injection Ha as -> ->.
  - destruct Hc as (Hp & resp & w1 & Hg & Hn & Hc).
    assert (Hp' : strings.HasPrefix (next_location resp) (scheme +:+ "://")
                  = false) by (destruct k; apply Hc).
    cbn [after_hops] in Ha. rewrite Hg in Ha.
    cbn [Nat.add followRedirects_loop]. rewrite Hp, Hg.
    apply nonempty_true in Hn. rewrite Hn, Hp'. cbn [negb].
    now apply IH.
Qed.
End FollowMore.

(** X1. [followRedirects] never passes a URL of the custom scheme to
    [client.Get]: whatever the network answers, every URL it requests
    lacks the prefix made of the scheme and [://]. *)
Theorem followRedirects_never_requests_custom_scheme {N : NetURL}
    {World : Type} (C : http.Client World) (startURL scheme : string)
    (w : World) :
  Forall (fun x => strings.HasPrefix x (scheme +:+ "://") = false)
    (snd (snd (Manual.followRedirects (C := Manual.logged C) startURL scheme
                 (w, [])))).
Proof.
  destruct (loop_requests_not_custom C 10 scheme startURL w [])
    as (urls & Hr & Hf).
  unfold Manual.followRedirects. now rewrite Hr.
Qed.

(** X2. After fewer than ten hops through pages that each name a next
    location outside the custom scheme, the next answer decides the
    result of [followRedirects]: a failed request gives the
    follow-redirect error with the client's text, an answer without a
    next location ends the chain with a failure, and a next location of
    the custom scheme gives what [extractCode] makes of it. *)
Theorem followRedirects_ends_chain {N : NetURL} {World : Type}
    {C : http.Client World} (k : nat) (scheme startURL uk : string)
    (w wk : World) :
  (k < 10)%nat ->
  Manual.chain k scheme startURL w ->
  Manual.after_hops k scheme startURL w = Some (uk, wk) ->
  match http.client_Get scheme uk wk with
  | (inl e, w') =>
      Manual.followRedirects startURL scheme w
      = (Err ("failed to follow redirect: " +:+ e), w')
  | (inr resp, w') =>
      (Manual.next_location resp = "" ->
       Manual.followRedirects startURL scheme w
       = (Err "failed to complete redirect chain", w'))
      /\ (strings.HasPrefix (Manual.next_location resp) (scheme +:+ "://")
          = true ->
          Manual.followRedirects startURL scheme w
          = (Manual.extractCode (Manual.next_location resp), w'))
  end.
Proof.
  intros Hk Hc Ha. unfold Manual.followRedirects.
  replace 10%nat with (k + S (9 - k))%nat by lia.
  rewrite (loop_along C k _ scheme startURL uk w wk Hc Ha).
  assert (Hp : strings.HasPrefix uk (scheme +:+ "://") = false).
  { clear Hk. revert startURL w Hc Ha.
    induction k as [|k IH]; intros u0 w0 Hc Ha.
    - simpl in Ha. injection Ha as -> ->. apply Hc.
    - destruct Hc as (_ & resp & w1 & Hg & _ & Hc).
      cbn [Manual.after_hops] in Ha. rewrite Hg in Ha. eapply IH; eassumption. }
  cbn [Manual.followRedirects_loop]. rewrite Hp.
  destruct (http.client_Get scheme uk wk) as [[e|resp] w'].
  - simpl. now rewrite append_nil_r.
  - split.
    + intros Hn. apply nonempty_false in Hn. now rewrite Hn.
    + intros Hcu.
      destruct (nonempty (Manual.next_location resp)) eqn:Hn.
      * now rewrite Hcu.
      * apply nonempty_false in Hn. rewrite Hn in Hcu.
        destruct scheme; discriminate.
Qed.

(** ** Progress reports of the browser-driven flow *)


Section ProgressFacts.
Context {N : NetURL} {World : Type} {B : chromedp.Browser World}.
Import chromedp Browser.

Lemma reported_deliver (redirectPrefix : string) (st : State)
    (evs : list Event) :
  reported (deliver redirectPrefix st evs) = reported st.
Proof. apply deliver_authError. Qed.

Lemma reports_ret (p : bool) (Ls : list (list string)) {X : Type} (a : X) :
  reports p Ls Ls (ret (World := World) a).
Proof. intros st w Hin. exact Hin. Qed.

Lemma reports_return_ (p : bool) (Ls after : list (list string)) {X : Type}
    (r : result) :
  Forall (in_step_order p) Ls ->
  reports p Ls after (return_ (World := World) (A := X) r).
Proof.
  intros Hall st w Hin. simpl. rewrite Forall_forall in Hall. now apply Hall.
Qed.

Lemma reports_bind (p : bool) (Ls Lm Ln : list (list string)) {X Y : Type}
    (m : M World X) (k : X -> M World Y) :
  reports p Ls Lm m -> (forall a, reports p Lm Ln (k a)) ->
  reports p Ls Ln (bind m k).
Proof.
  intros Hm Hk st w Hin. unfold bind. specialize (Hm st w Hin).
  destruct (m st w) as [[[r|a] st1] w1]; [exact Hm | now apply Hk].
Qed.

Lemma reports_report (p : bool) (Ls : list (list string)) (step : string) :
  reports p Ls (if p then map (fun l => l ++ [step]) Ls else Ls)
    (report (World := World) p step).
Proof.
  intros st w Hin. unfold report. destruct p; [|exact Hin].
  simpl. apply list_elem_of_fmap. now exists (reported st).
Qed.

Lemma reports_run (p : bool) (Ls : list (list string))
    (redirectPrefix : string) (t : Tasks) :
  reports p Ls Ls (run redirectPrefix t).
Proof.
  intros st w Hin. unfold run. destruct (Run t w) as [o w1].
  now rewrite reported_deliver.
Qed.

Lemma reports_get_oauthCode (p : bool) (Ls : list (list string)) :
  reports p Ls Ls (get_oauthCode (World := World)).
Proof. intros st w Hin. exact Hin. Qed.

Lemma reports_assign_authError (p : bool) (Ls : list (list string))
    (e : string) :
  reports p Ls Ls (assign_authError (World := World) e).
Proof. intros st w Hin. exact Hin. Qed.

Lemma reports_check (p : bool) (Ls : list (list string)) (e : option string)
    (format : string) :
  Forall (in_step_order p) Ls ->
  reports p Ls Ls (check (World := World) e format).
Proof.
  intros Hall. destruct e; [now apply reports_return_ | apply reports_ret].
Qed.

Lemma reports_when (p : bool) (Ls : list (list string)) (c : bool)
    (body : M World unit) :
  reports p Ls Ls body -> reports p Ls Ls (when c body).
Proof. intros Hb. destruct c; [exact Hb | apply reports_ret]. Qed.

Lemma reports_weaken (p : bool) (Ls L1 L2 : list (list string)) {X : Type}
    (m : M World X) :
  reports p Ls L1 m -> L1 ⊆ L2 -> reports p Ls L2 m.
Proof.
  intros Hm Hsub st w Hin. specialize (Hm st w Hin).
  destruct (m st w) as [[[r|a] st1] w1]; [exact Hm | now apply Hsub].
Qed.

Lemma reports_option (p : bool) (Ls L1 L2 : list (list string)) {X Y : Type}
    (x : option X) (f : X -> M World Y) (g : M World Y) :
  (forall e, reports p Ls L1 (f e)) -> reports p Ls L2 g ->
  reports p Ls (L1 ++ L2) (match x with Some e => f e | None => g end).
Proof.
  intros Hf Hg. destruct x as [e|].
  - eapply reports_weaken; [apply Hf | set_solver].
  - eapply reports_weaken; [apply Hg | set_solver].
Qed.

Lemma reports_if (p : bool) (Ls L1 L2 : list (list string)) {X : Type}
    (c : bool) (m1 m2 : M World X) :
  reports p Ls L1 m1 -> reports p Ls L2 m2 ->
  reports p Ls (L1 ++ L2) (if c then m1 else m2).
Proof.
  intros H1 H2. destruct c.
  - eapply reports_weaken; [apply H1 | set_solver].
  - eapply reports_weaken; [apply H2 | set_solver].
Qed.

Lemma reports_finalCheck (p : bool) (Ls after : list (list string)) :
  Forall (in_step_order p) Ls ->
  reports p Ls after (finalCheck (World := World)).
Proof.
  intros Hall st w Hin. unfold finalCheck. rewrite Forall_forall in Hall.
  destruct (nonempty (authError st)); now apply Hall.
Qed.
End ProgressFacts.

Ltac in_order :=
  cbn [map app];
  repeat (apply Forall_cons_2;
          [ first [ reflexivity
                  | split;
                    [ discriminate
                    | first [ left; eexists; reflexivity
                            | right; eexists; reflexivity ] ] ] | ]);
  apply Forall_nil_2.

Ltac reports_flow :=
  lazymatch goal with
  | |- reports _ _ _ (Browser.bind _ _) =>
      eapply reports_bind; [reports_flow | intros ?; reports_flow]
  | |- reports _ _ _ (Browser.report _ _) => apply reports_report
  | |- reports _ _ _ (Browser.run _ _) => apply reports_run
  | |- reports _ _ _ Browser.get_oauthCode => apply reports_get_oauthCode
  | |- reports _ _ _ (Browser.assign_authError _) =>
      apply reports_assign_authError
  | |- reports _ _ _ (Browser.check _ _) => apply reports_check; in_order
  | |- reports _ _ _ (Browser.when _ _) => apply reports_when; reports_flow
  | |- reports _ _ _ (Browser.ret _) => apply reports_ret
  | |- reports _ _ _ (Browser.return_ _) =>
      first [apply (reports_return_ _ _ []) | apply reports_return_]; in_order
  | |- reports _ _ _ Browser.finalCheck =>
      first [apply (reports_finalCheck _ _ []) | apply reports_finalCheck];
      in_order
  | |- reports _ _ _ (match _ with Some _ => _ | None => _ end) =>
      eapply reports_option; [intros ?; reports_flow | reports_flow]
  | |- reports _ _ _ (if _ then _ else _) =>
      eapply reports_if; [reports_flow | reports_flow]
  end.

Section ProgressMain.
Context {N : NetURL} {World : Type} {B : chromedp.Browser World}.
Import chromedp Browser.

Lemma flow_reports (authURL email password scheme : string) (progress : bool) :
  reports progress [[]] []
    (bind (flow authURL email password scheme progress)
       (fun _ => finalCheck)).
Proof.
  unfold flow. cbv zeta. destruct progress.
  - reports_flow.
  - reports_flow.
Qed.
End ProgressMain.


Lemma performChromedpOAuth_steps {N : NetURL} {World : Type}
    {B : chromedp.Browser World} (url email password scheme : string)
    (progress : bool) (w : World) :
  in_step_order progress
    (snd (fst (Browser.performChromedpOAuth url email password scheme
                 progress w))).
Proof.
  pose proof (flow_reports url email password scheme progress
                Browser.initial w) as Hr.
  unfold Browser.performChromedpOAuth.
  destruct (Browser.bind _ _ Browser.initial w) as [[[r|[]] st'] w'].
  apply Hr. now apply list_elem_of_singleton.
Qed.

Lemma performOAuth_steps {N : NetURL} {World : Type}
    {B : chromedp.Browser World}
    (configs : string + gmap string BrandConfig) (req : OAuthRequest)
    (w : World) :
  snd (fst (Browser.performOAuth configs req false w)) = []
  /\ exists later,
       snd (fst (Browser.performOAuth configs req true w))
       = "Preparing authentication..." :: later
       /\ (later = [] \/ in_step_order true later).
Proof.
  unfold Browser.performOAuth. split.
  - destruct configs as [e|configs]; [reflexivity|].
    destruct (lookupConfig configs req) as [e|[b c]]; [reflexivity|].
    pose proof (performChromedpOAuth_steps (authURL b c (Country req))
                  (Email req) (Password req) (Scheme b) false w) as Hsteps.
    destruct (Browser.performChromedpOAuth _ _ _ _ false w) as [[r steps] w'].
    exact Hsteps.
  - destruct configs as [e|configs]; [exists []; split; [reflexivity|now left]|].
    destruct (lookupConfig configs req) as [e|[b c]];
      [exists []; split; [reflexivity|now left]|].
    pose proof (performChromedpOAuth_steps (authURL b c (Country req))
                  (Email req) (Password req) (Scheme b) true w) as Hsteps.
    destruct (Browser.performChromedpOAuth _ _ _ _ true w) as [[r steps] w'].
    exists steps. split; [reflexivity | now right].
Qed.

(** X5. The steps reported by [performChromedpOAuth] are in step
    order and none is repeated: with a callback they are a non-empty
    initial part of the five steps up to the submission followed
    either by the success message or by the two authorization steps;
    without a callback nothing is reported. [performOAuth] reports the
    preparation step before them. *)
Theorem progress_reported_in_step_order {N : NetURL} {World : Type}
    {B : chromedp.Browser World}
    (configs : string + gmap string BrandConfig) (req : OAuthRequest)
    (url email password scheme : string) (w : World) :
  (forall progress,
      in_step_order progress
        (snd (fst (Browser.performChromedpOAuth url email password scheme
                     progress w))))
  /\ snd (fst (Browser.performOAuth configs req false w)) = []
  /\ exists later,
       snd (fst (Browser.performOAuth configs req true w))
       = "Preparing authentication..." :: later
       /\ (later = [] \/ in_step_order true later).
Proof.
  split; [intros progress; apply performChromedpOAuth_steps|].
  apply performOAuth_steps.
Qed.

(** ** Results are filled *)

Lemma lookupConfig_inl (configs : gmap string BrandConfig)
    (req : OAuthRequest) (e : string) :
  lookupConfig configs req = inl e -> e <> "".
Proof.
  unfold lookupConfig. destruct (configs !! Brand req) as [b|].
  - destruct (Configs b !! Country req); [discriminate|].
    intros [= <-]. discriminate.
  - intros [= <-]. discriminate.
Qed.

Section ManualFilled.
Context {N : NetURL} {World : Type} {C : http.Client World}.
Import Manual.

Lemma extractCode_filled (u : string) : filled (extractCode u).
Proof.
  unfold extractCode. destruct (url_Parse u) as [e|parsed]; [discriminate|].
  destruct (nonempty (Query_Get parsed "code")) eqn:Hn; [|discriminate].
  now apply nonempty_true.
Qed.

Lemma followRedirects_loop_filled (n : nat) (u scheme : string) (w : World) :
  filled (fst (followRedirects_loop n u scheme w)).
Proof.
  revert u w. induction n as [|n IH]; intros u w; cbn [followRedirects_loop];
    [discriminate|].
  destruct (strings.HasPrefix u (scheme +:+ "://"));
    [apply extractCode_filled|].
  destruct (http.client_Get scheme u w) as [[e|resp] w1]; [discriminate|].
  destruct (negb (nonempty (next_location resp))); [discriminate|].
  destruct (strings.HasPrefix (next_location resp) (scheme +:+ "://"));
    [apply extractCode_filled | apply IH].
Qed.

Lemma afterLogin_filled (loginResp : http.Response) (scheme : string)
    (w : World) :
  filled (fst (afterLogin loginResp scheme w)).
Proof.
  unfold afterLogin, followRedirects.
  repeat match goal with
         | |- context [if ?b then _ else _] => destruct b
         end;
    first [ apply extractCode_filled | apply followRedirects_loop_filled
          | discriminate ].
Qed.

Lemma performOAuth_filled (req : OAuthRequest) (w : World) :
  filled (fst (performOAuth req w)).
Proof.
  unfold performOAuth.
  destruct (http.Get_configs w) as [[e|e|configs] w1]; try discriminate.
  destruct (lookupConfig configs req) as [e|[brandConfig countryConfig]] eqn:El;
    [exact (lookupConfig_inl _ _ _ El)|].
  destruct (http.client_Get _ _ w1) as [[e|authResp] w2]; [discriminate|].
  destruct (http.BodyErr authResp); [discriminate|].
  destruct (negb (nonempty _)); [discriminate|].
  destruct (http.client_Post _ _ _ w2) as [[e|e|loginResp] w3];
    try discriminate.
  apply afterLogin_filled.
Qed.
End ManualFilled.

(** X3. Every answer of the handler of the manual variant is one of two: status
    200 with a non-empty code, the code [performOAuth] returned; or
    status 400 or 405 with a non-empty message and no data. *)
Theorem manual_response_success_or_error {N : NetURL} {World : Type}
    {C : http.Client World} (r : Request) (w : World) :
  let resp := fst (Manual.handleOAuth r w) in
  (exists code req,
      code <> "" /\ resp = sendSuccess code
      /\ Decoded r = Some req
      /\ fst (Manual.performOAuth req w) = Ok code)
  \/ (exists message statusCode,
         message <> "" /\ (statusCode = 400 \/ statusCode = 405)
         /\ resp = sendError message statusCode).
Proof.
  unfold Manual.handleOAuth.
  destruct (negb (String.eqb (Method r) MethodPost)).
  { right. exists "Method not allowed", 405. split; [discriminate|]. split; [now right | reflexivity]. }
  destruct (Decoded r) as [req|].
  2: { right. exists "Invalid request body", 400.
       split; [discriminate|]. split; [now left | reflexivity]. }
  match goal with |- context [if ?b then _ else _] => destruct b end.
  { right. exists "All fields are required", 400.
    split; [discriminate|]. split; [now left | reflexivity]. }
  pose proof (performOAuth_filled req w) as Hf.
  destruct (Manual.performOAuth req w) as [[code|e] w'] eqn:Hrun;
    simpl in Hf |- *.
  - left. exists code, req. split; [exact Hf|]. split; [reflexivity|].
    split; [reflexivity | now rewrite Hrun].
  - right. exists e, 400. split; [exact Hf|]. split; [now left | reflexivity].
Qed.

Section BrowserFilled.
Context {N : NetURL} {World : Type} {B : chromedp.Browser World}.
Import chromedp Browser.

Lemma returns_filled_bind {X Y : Type} (m : M World X) (k : X -> M World Y) :
  returns_filled m -> (forall a, returns_filled (k a)) ->
  returns_filled (bind m k).
Proof.
  intros Hm Hk st w r st' w'. unfold bind.
  destruct (m st w) as [[[r1|a] st1] w1] eqn:E.
  - intros [= -> -> ->]. exact (Hm _ _ _ _ _ E).
  - apply Hk.
Qed.

Lemma returns_filled_return_ {X : Type} (r : result) :
  filled r -> returns_filled (return_ (World := World) (A := X) r).
Proof. intros Hf st w r' st' w'. unfold return_. now intros [= <- _ _]. Qed.

Lemma returns_filled_ret {X : Type} (a : X) :
  returns_filled (ret (World := World) a).
Proof. intros st w r st' w'. unfold ret. discriminate. Qed.

Lemma returns_filled_report (progress : bool) (step : string) :
  returns_filled (report (World := World) progress step).
Proof. intros st w r st' w'. unfold report. discriminate. Qed.

Lemma returns_filled_run (redirectPrefix : string) (t : Tasks) :
  returns_filled (run redirectPrefix t).
Proof.
  intros st w r st' w'. unfold run. destruct (Run t w). discriminate.
Qed.

Lemma returns_filled_get_oauthCode :
  returns_filled (get_oauthCode (World := World)).
Proof. intros st w r st' w'. unfold get_oauthCode. discriminate. Qed.

Lemma returns_filled_assign_authError (e : string) :
  returns_filled (assign_authError (World := World) e).
Proof. intros st w r st' w'. unfold assign_authError. discriminate. Qed.

Lemma returns_filled_check (e : option string) (format : string) :
  (forall e, fmt.Sprintf format [e] <> "") ->
  returns_filled (check (World := World) e format).
Proof.
  intros Hf. destruct e as [e|];
    [apply returns_filled_return_, Hf | apply returns_filled_ret].
Qed.

Lemma returns_filled_finalCheck :
  returns_filled (finalCheck (World := World)).
Proof.
  intros st w r st' w'. unfold finalCheck.
  destruct (nonempty (authError st)); intros [= <- _ _]; discriminate.
Qed.

Lemma code_of_location_Some (redirectPrefix currentURL code : string) :
  code_of_location redirectPrefix currentURL = Some code -> code <> "".
Proof.
  unfold code_of_location.
  destruct (strings.HasPrefix currentURL redirectPrefix); [|discriminate].
  destruct (url_Parse currentURL) as [e|parsed]; [discriminate|].
  destruct (nonempty (Query_Get parsed "code")) eqn:Hn; [|discriminate].
  intros [= <-]. now apply nonempty_true.
Qed.

Lemma flow_returns_filled (authURL email password scheme : string)
    (progress : bool) :
  returns_filled
    (bind (flow authURL email password scheme progress)
       (fun _ => finalCheck)).
Proof.
  unfold flow, when. cbv zeta.
  repeat first
    [ apply returns_filled_report | apply returns_filled_run
    | apply returns_filled_check; intros ?; discriminate
    | apply returns_filled_get_oauthCode
    | apply returns_filled_assign_authError | apply returns_filled_ret
    | apply returns_filled_finalCheck
    | apply returns_filled_return_;
      first [ discriminate
            | now apply nonempty_true
            | eapply code_of_location_Some; eassumption ]
    | apply returns_filled_bind; [|intros ?]
    | match goal with
      | |- returns_filled (if nonempty ?x then _ else _) =>
          destruct (nonempty x) eqn:?
      | |- returns_filled (match code_of_location ?p ?u with _ => _ end) =>
          destruct (code_of_location p u) eqn:?
      | |- returns_filled (match ?x with _ => _ end) => destruct x
      end ].
Qed.

Lemma browser_performOAuth_filled
    (configs : string + gmap string BrandConfig) (req : OAuthRequest)
    (progress : bool) (w : World) :
  filled (fst (fst (performOAuth configs req progress w))).
Proof.
  unfold performOAuth.
  destruct configs as [e|configs]; [discriminate|].
  destruct (lookupConfig configs req) as [e|[b c]] eqn:El;
    [exact (lookupConfig_inl _ _ _ El)|].
  pose proof (flow_returns_filled (authURL b c (Country req)) (Email req)
                (Password req) (Scheme b) progress initial w) as Hr.
  unfold performChromedpOAuth.
  destruct (bind _ _ initial w) as [[[r|[]] st'] w'].
  simpl. eapply Hr. reflexivity.
Qed.
End BrowserFilled.

(** X4. Every answer of the browser-driven handler: a JSON document is
    status 200 with a non-empty code, or status 400, 405 or 500 with a
    non-empty message and no data; an event stream is written only to
    a caller that accepts one and whose connection can be flushed. *)
Theorem browser_response_success_or_error {N : NetURL} {World : Type}
    {B : chromedp.Browser World}
    (configs : string + gmap string BrandConfig) (flusher : bool)
    (r : Request) (w : World) :
  match fst (Browser.handleOAuth configs flusher r w) with
  | Browser.JSON resp =>
      (exists code req,
          code <> "" /\ resp = sendSuccess code
          /\ Decoded r = Some req
          /\ fst (fst (Browser.performOAuth configs req false w)) = Ok code)
      \/ (exists message statusCode,
             message <> ""
             /\ (statusCode = 400 \/ statusCode = 405 \/ statusCode = 500)
             /\ resp = sendError message statusCode)
  | Browser.EventStream _ =>
      Accept r = "text/event-stream" /\ flusher = true
  end.
Proof.
  unfold Browser.handleOAuth.
  destruct (negb (String.eqb (Method r) MethodPost)).
  { right. exists "Method not allowed", 405. split; [discriminate|]. split; [now right; left | reflexivity]. }
  destruct (Decoded r) as [req|].
  2: { right. exists "Invalid request body", 400.
       split; [discriminate|]. split; [now left | reflexivity]. }
  match goal with |- context [if ?b then _ else _] => destruct b end.
  { right. exists "All fields are required", 400.
    split; [discriminate|]. split; [now left | reflexivity]. }
  destruct (String.eqb_spec (Accept r) "text/event-stream") as [Ha|Ha].
  { unfold Browser.handleOAuthSSE. destruct flusher; simpl.
    - now destruct (Browser.performOAuth configs req true w)
        as [[[c|e] st] w'].
    - right. exists "SSE not supported", 500.
      split; [discriminate|]. split; [now right; right | reflexivity]. }
  pose proof (browser_performOAuth_filled configs req false w) as Hf.
  destruct (Browser.performOAuth configs req false w)
    as [[[code|e] steps] w'] eqn:Hrun; simpl in Hf |- *.
  - left. exists code, req. split; [exact Hf|]. split; [reflexivity|].
    split; [reflexivity | now rewrite Hrun].
  - right. exists e, 400. split; [exact Hf|]. split; [now left | reflexivity].
Qed.

(** ** The event stream *)

(** X6. [handleOAuthSSE] answers status 500 without running anything when
    the connection cannot be flushed; otherwise it writes one progress
    event per reported step, the first being the preparation step and
    the others in step order, and then exactly one terminal event: an
    error with the non-empty message or a success with the non-empty
    code that [performOAuth] returned. *)
Theorem event_stream_shape {N : NetURL} {World : Type}
    {B : chromedp.Browser World}
    (configs : string + gmap string BrandConfig) (req : OAuthRequest)
    (w : World) :
  Browser.handleOAuthSSE configs false req w
  = (Browser.JSON (sendError "SSE not supported" 500), w)
  /\ exists steps terminal,
       fst (Browser.handleOAuthSSE configs true req w)
       = Browser.EventStream
           (map (Browser.sse_event "progress" "message")
              ("Preparing authentication..." :: steps) ++ [terminal])
       /\ (steps = [] \/ in_step_order true steps)
       /\ ((exists e,
               fst (fst (Browser.performOAuth configs req true w)) = Err e
               /\ e <> ""
               /\ terminal = Browser.sse_event "error" "message" e)
           \/ (exists code,
                  fst (fst (Browser.performOAuth configs req true w)) = Ok code
                  /\ code <> ""
                  /\ terminal = Browser.sse_event "success" "code" code)).
Proof.
  split; [reflexivity|].
  destruct (performOAuth_steps configs req w) as (_ & later & Hl & Ho).
  pose proof (browser_performOAuth_filled configs req true w) as Hf.
  unfold Browser.handleOAuthSSE. cbn [negb].
  destruct (Browser.performOAuth configs req true w) as [[[code|e] steps] w'];
    simpl in Hl, Hf; subst steps; exists later; eexists;
    (split; [reflexivity|]); (split; [exact Ho|]).
  - right. exists code. split; [reflexivity|]. split; [exact Hf | reflexivity].
  - left. exists e. split; [reflexivity|]. split; [exact Hf | reflexivity].
Qed.

(** ** Requests that never reach the automation *)

(** X7. In both variants a request with another method than POST is
    answered 405 with the message that the method is not allowed,
    whatever its body, and a POST whose body does not decode is
    answered 400 with the message that the body is invalid; neither
    touches the network or the browser. *)
Theorem invalid_request_rejected_without_automation (r : Request) :
  (Method r <> "POST" ->
   (forall (N : NetURL) (World : Type) (C : http.Client World) (w : World),
       Manual.handleOAuth r w
       = (sendError "Method not allowed" 405, w))
   /\ (forall (N : NetURL) (World : Type) (B : chromedp.Browser World)
         (configs : string + gmap string BrandConfig) (flusher : bool)
         (w : World),
         Browser.handleOAuth configs flusher r w
         = (Browser.JSON (sendError "Method not allowed" 405), w)))
  /\ (Method r = "POST" -> Decoded r = None ->
      (forall (N : NetURL) (World : Type) (C : http.Client World) (w : World),
          Manual.handleOAuth r w
          = (sendError "Invalid request body" 400, w))
      /\ (forall (N : NetURL) (World : Type) (B : chromedp.Browser World)
            (configs : string + gmap string BrandConfig) (flusher : bool)
            (w : World),
            Browser.handleOAuth configs flusher r w
            = (Browser.JSON (sendError "Invalid request body" 400), w))).
Proof.
  split.
  - intros Hm. apply String.eqb_neq in Hm.
    split; intros; unfold Manual.handleOAuth, Browser.handleOAuth, MethodPost;
      now rewrite Hm.
  - intros Hm Hd.
    split; intros; unfold Manual.handleOAuth, Browser.handleOAuth;
      now rewrite (eqb_MethodPost _ Hm), Hd.
Qed.

(** ** Unknown brands and countries *)

Lemma lookupConfig_unknown_brand (configs : gmap string BrandConfig)
    (req : OAuthRequest) :
  configs !! Brand req = None ->
  lookupConfig configs req = inl ("unknown brand: " +:+ Brand req).
Proof.
  intros Hb. unfold lookupConfig. rewrite Hb. simpl.
  now rewrite append_nil_r.
Qed.

Lemma lookupConfig_unknown_country (configs : gmap string BrandConfig)
    (req : OAuthRequest) (brandConfig : BrandConfig) :
  configs !! Brand req = Some brandConfig ->
  Configs brandConfig !! Country req = None ->
  lookupConfig configs req
  = inl ("unknown country for brand " +:+ Brand req +:+ ": " +:+ Country req).
Proof.
  intros Hb Hc. unfold lookupConfig. rewrite Hb, Hc. simpl.
  now rewrite append_nil_r.
Qed.

(** X8. A complete POST for a brand that is not configured, or for a
    country that the brand does not have, is answered with status 400
    and a message naming the brand, respectively the brand and the
    country, in both variants; as an event stream the answer is the
    preparation step followed by the error event. The manual variant
    has fetched the configuration by then and done nothing else, the
    browser is not started. *)
Theorem unknown_brand_or_country_rejected (r : Request) (req : OAuthRequest)
    (configs : gmap string BrandConfig) (message : string) :
  Method r = "POST" -> Decoded r = Some req -> all_present req ->
  (configs !! Brand req = None
   /\ message = "unknown brand: " +:+ Brand req)
  \/ (exists brandConfig,
         configs !! Brand req = Some brandConfig
         /\ Configs brandConfig !! Country req = None
         /\ message = "unknown country for brand " +:+ Brand req +:+ ": "
                      +:+ Country req) ->
  (forall (N : NetURL) (World : Type) (C : http.Client World) (w w1 : World),
      http.Get_configs w = (http.Fetched configs, w1) ->
      Manual.handleOAuth r w = (sendError message 400, w1))
  /\ (forall (N : NetURL) (World : Type) (B : chromedp.Browser World)
        (flusher : bool) (w : World),
        Accept r <> "text/event-stream" ->
        Browser.handleOAuth (inr configs) flusher r w
        = (Browser.JSON (sendError message 400), w))
  /\ (forall (N : NetURL) (World : Type) (B : chromedp.Browser World)
        (w : World),
        Accept r = "text/event-stream" ->
        Browser.handleOAuth (inr configs) true r w
        = (Browser.EventStream
             [Browser.sse_event "progress" "message"
                "Preparing authentication...";
              Browser.sse_event "error" "message" message], w)).
Proof.
  intros Hm Hd Hall Hunknown.
  assert (Hl : lookupConfig configs req = inl message).
  { destruct Hunknown as [[Hb ->]|(b & Hb & Hc & ->)].
    - now apply lookupConfig_unknown_brand.
    - now apply (lookupConfig_unknown_country _ _ b). }
  pose proof (validation_passes req Hall) as Hv.
  split; [|split].
  - intros N World C w w1 Hg.
    unfold Manual.handleOAuth, Manual.performOAuth.
    now rewrite (eqb_MethodPost _ Hm), Hd, Hv, Hg, Hl.
  - intros N World B flusher w Hacc. apply String.eqb_neq in Hacc.
    unfold Browser.handleOAuth, Browser.performOAuth.
    now rewrite (eqb_MethodPost _ Hm), Hd, Hv, Hacc, Hl.
  - intros N World B w Hacc.
    unfold Browser.handleOAuth, Browser.handleOAuthSSE, Browser.performOAuth.
    rewrite (eqb_MethodPost _ Hm), Hd, Hv, Hacc, Hl. reflexivity.
Qed.

(** ** The login payload *)

Section PayloadFacts.
Import regexp Manual.

Lemma find_all_lit_none r' g (l s : string) :
  strings.Contains s l = false ->
  FindAllStringSubmatch (Seq (Lit l) r') g s = [].
Proof.
  intros Hc. apply find_all_none.
  induction s as [|c s IH]; simpl in Hc; apply orb_false_iff in Hc as [Hp Hc].
  - split; [|exact I]. unfold match_here. apply run_lit_miss.
    now apply strip_prefix_None.
  - split; [|intros _; now apply IH]. unfold match_here. apply run_lit_miss.
    now apply strip_prefix_None.
Qed.

Lemma extractHiddenFields_no_input (html : string) :
  strings.Contains html "<input" = false -> extractHiddenFields html = ∅.
Proof.
  intros Hc. unfold extractHiddenFields, reHidden, reHidden2.
  cbn [seq foldr]. now rewrite !find_all_lit_none.
Qed.

End PayloadFacts.

Lemma credentials_eq (e p : string) :
  <["rememberMe" := "false"]>
    (<["password" := p]> (<["username" := e]> (∅ : gmap string string)))
  = {[ "username" := e; "password" := p; "rememberMe" := "false" ]}.
Proof.
  apply map_eq. intros k.
  destruct (decide (k = "rememberMe")) as [->|?];
    [now simplify_map_eq|].
  destruct (decide (k = "password")) as [->|?];
    [now simplify_map_eq|].
  destruct (decide (k = "username")) as [->|?];
    now simplify_map_eq.
Qed.

(** X9. From a page without the text [<input] no hidden field is
    extracted, and the login payload is exactly the user name, the
    password and [rememberMe] set to [false]. *)
Theorem login_payload_without_inputs (req : OAuthRequest) (html : string) :
  strings.Contains html "<input" = false ->
  Manual.extractHiddenFields html = ∅
  /\ Manual.loginData req html
     = {[ "username" := Email req; "password" := Password req;
          "rememberMe" := "false" ]}.
Proof.
  intros Hc. pose proof (extractHiddenFields_no_input html Hc) as He.
  split; [exact He|]. unfold Manual.loginData. rewrite He.
  rewrite (left_id_L ∅ (∪)). apply credentials_eq.
Qed.


(** ** The calls of the manual variant *)

Section TraceFacts.
Context {N : NetURL} {World : Type} (C : http.Client World).
Import Manual.


End TraceFacts.


Lemma extractFormAction_no_form (html baseURL : string) :
  strings.Contains html "<form" = false ->
  Manual.extractFormAction html baseURL = "".
Proof.
  intros Hc. unfold Manual.extractFormAction, Manual.reFormAction.
  cbn [regexp.seq foldr]. now rewrite find_none.
Qed.

(** X12. When the authorization page has no form, [performOAuth] fails with
    the message that the login form was not found, after the fetch of
    the configuration and the one page request: nothing is submitted. *)
Theorem no_login_form_nothing_submitted {N : NetURL} {World : Type}
    (C : http.Client World) (req : OAuthRequest) (w w1 w2 : World)
    (configs : gmap string BrandConfig) (brandConfig : BrandConfig)
    (countryConfig : CountryConfig) (authResp : http.Response) :
  http.Get_configs w = (http.Fetched configs, w1) ->
  lookupConfig configs req = inr (brandConfig, countryConfig) ->
  http.client_Get (Scheme brandConfig)
    (authURL brandConfig countryConfig (Country req)) w1
  = (inr authResp, w2) ->
  http.BodyErr authResp = None ->
  strings.Contains (http.Body authResp) "<form" = false ->
  Manual.performOAuth req w = (Err "could not find login form", w2)
  /\ Manual.performOAuth (C := traced C) req (w, [])
     = (Err "could not find login form",
        (w2, [ConfigsCall;
              GetCall (authURL brandConfig countryConfig (Country req))])).
Proof.
  intros Hc Hl Hg Hb Hf. unfold Manual.performOAuth.
  cbn [http.Get_configs http.client_Get traced].
  rewrite Hc, Hl. cbn [http.client_Get traced]. rewrite Hg, Hb.
  rewrite (extractFormAction_no_form _ _ Hf). split; reflexivity.
Qed.

(** ** Redirects found in a page *)

Section RedirectFacts.
Import regexp Manual.

Lemma run_alt_lit_miss {R : Type} (a b : string) (r : Regexp) (s : string)
    (caps : list string) (k : string -> list string -> option R) :
  strip_prefix a s = None -> strip_prefix b s = None ->
  run (Seq (Alt (Lit a) (Lit b)) r) s caps k = None.
Proof. intros Ha Hb. simpl. now rewrite Ha, Hb. Qed.

Lemma run_alt_lit_hit {R : Type} (a b : string) (r : Regexp) (s s' : string)
    (caps : list string) (k : string -> list string -> option R) (x : R) :
  strip_prefix a s = Some s' -> run r s' caps k = Some x ->
  run (Seq (Alt (Lit a) (Lit b)) r) s caps k = Some x.
Proof. intros Ha Hr. simpl. rewrite Ha. simpl in Hr. now rewrite Hr. Qed.

Lemma find_none_alt (a b : string) (r : Regexp) (g : nat) (s : string) :
  strings.Contains s a = false -> strings.Contains s b = false ->
  FindStringSubmatch (Seq (Alt (Lit a) (Lit b)) r) g s = None.
Proof.
  induction s as [|c s IH]; intros Ha Hb; simpl in Ha, Hb;
    apply orb_false_iff in Ha as [Hpa Ha];
    apply orb_false_iff in Hb as [Hpb Hb];
    cbn [FindStringSubmatch]; unfold match_here at 1;
    (rewrite run_alt_lit_miss; [|now apply strip_prefix_None..]);
    [reflexivity | now apply IH].
Qed.

Lemma extractRedirectURL_none (html : string) :
  strings.Contains html "window.location" = false ->
  strings.Contains html "location.href" = false ->
  strings.Contains html "<meta" = false ->
  extractRedirectURL html = "".
Proof.
  intros Hw Hl Hm. unfold extractRedirectURL, reScriptRedirect, reMetaRefresh.
  cbn [seq foldr]. now rewrite find_none_alt, find_none.
Qed.
End RedirectFacts.

(** X13. A page that names neither [window.location] nor [location.href]
    nor a [<meta] tag holds no redirect for [extractRedirectURL]; when
    the login is answered by such a page, without a custom-scheme
    [Location], with a status outside 3xx and without the words
    [error] and [invalid], [performOAuth] gives up with the message
    that the flow could not be completed and makes no further
    request. *)
Theorem page_without_redirect_ends_flow {N : NetURL} {World : Type}
    {C : http.Client World} (loginResp : http.Response) (scheme : string)
    (w : World) :
  strings.Contains (http.Body loginResp) "window.location" = false ->
  strings.Contains (http.Body loginResp) "location.href" = false ->
  strings.Contains (http.Body loginResp) "<meta" = false ->
  Manual.extractRedirectURL (http.Body loginResp) = ""
  /\ (strings.HasPrefix (http.Location loginResp) (scheme +:+ "://") = false ->
      Manual.is_redirect_status (http.StatusCode loginResp) = false ->
      strings.Contains (http.Body loginResp) "error" = false ->
      strings.Contains (http.Body loginResp) "invalid" = false ->
      Manual.afterLogin loginResp scheme w
      = (Err "authentication failed - could not complete OAuth flow", w)).
Proof.
  intros Hw Hl Hm.
  pose proof (extractRedirectURL_none _ Hw Hl Hm) as Hnone.
  split; [exact Hnone|]. intros Hp Hs He Hi.
  unfold Manual.afterLogin. rewrite Hp, Hs, He, Hi, Hnone.
  now rewrite andb_false_r.
Qed.

Section ScriptFacts.
Import regexp Manual.

Lemma strip_prefix_same (l rest : string) :
  strip_prefix l (l +:+ rest) = Some rest.
Proof.
  induction l as [|c l IH]; simpl; [reflexivity|].
  now rewrite Ascii.eqb_refl.
Qed.

Lemma quote_not_space (q : ascii) : is_quote q = true -> is_space q = false.
Proof.
  unfold is_quote, is_space. intros Hq. apply orb_true_iff in Hq.
  destruct Hq as [Hq|Hq]; apply Ascii.eqb_eq in Hq; subst q; reflexivity.
Qed.

(** The text [window.location] cannot begin in [p] and end in a
    second [window.location] that follows [p]. *)
Lemma window_location_apart (p rest : string) :
  p <> "" ->
  strings.HasPrefix p "window.location" = false ->
  strip_prefix "window.location" (p +:+ "window.location" +:+ rest) = None.
Proof.
  intros Hne. destruct p as [|c p]; [contradiction|]. clear Hne.
  simpl.
  destruct (Ascii.eqb c "w"); [|reflexivity].
  do 14 (destruct p as [|c' p];
         [ intros _; reflexivity
         | simpl;
           match goal with
           | |- context [Ascii.eqb c' ?a] => destruct (Ascii.eqb c' a)
           end; [|reflexivity]; clear c' ]).
  discriminate.
Qed.

Lemma find_past_script (r : Regexp) (g : nat) (pre rest : string) :
  strings.Contains pre "window.location" = false ->
  strings.Contains pre "location.href" = false ->
  FindStringSubmatch (Seq (Alt (Lit "window.location") (Lit "location.href")) r)
    g (pre +:+ "window.location" +:+ rest)
  = FindStringSubmatch
      (Seq (Alt (Lit "window.location") (Lit "location.href")) r)
      g ("window.location" +:+ rest).
Proof.
  induction pre as [|c pre IH]; intros Hw Hl; [reflexivity|].
  cbn [strings.Contains] in Hw, Hl.
  apply orb_false_iff in Hw as [Hpw Hw]. apply orb_false_iff in Hl as [Hpl Hl].
  change (String c pre +:+ "window.location" +:+ rest)
    with (String c (pre +:+ "window.location" +:+ rest)).
  cbn [FindStringSubmatch].
  unfold match_here at 1. rewrite run_alt_lit_miss; [now apply IH| |].
  - exact (window_location_apart (String c pre) rest
             ltac:(discriminate) Hpw).
  - exact (strip_prefix_before "location.href" (String c pre) "w"
             ("indow.location" +:+ rest) eq_refl Hpl).
Qed.

Lemma match_here_script (sp1 sp2 : string) (q1 q2 : ascii)
    (target post : string) :
  all_chars is_space sp1 = true -> all_chars is_space sp2 = true ->
  is_quote q1 = true -> is_quote q2 = true ->
  target <> "" -> quote_free target ->
  exists whole len,
    match_here reScriptRedirect 1
      ("window.location" +:+ sp1 +:+ "=" +:+ sp2
       +:+ String q1 (target +:+ String q2 post))
    = Some ([whole; target], len).
Proof.
  intros H1 H2 Hq1 Hq2 Hne Hqf.
  unfold match_here, reScriptRedirect. cbn [seq foldr].
  match goal with |- context [run _ _ _ ?k] => set (k0 := k) end.
  eexists _, _.
  eapply run_alt_lit_hit; [apply strip_prefix_same|].
  rewrite run_star. apply star_greedy_through; [exact H1|].
  simpl String.append. cbn [star_greedy]. change (is_space "=") with false.
  cbv iota. erewrite run_lit_hit by reflexivity.
  rewrite run_star. apply star_greedy_through; [exact H2|].
  cbn [star_greedy]. rewrite (quote_not_space q1 Hq1).
  rewrite run_class_hit by exact Hq1.
  apply run_group_plus_through;
    [exact Hne | exact Hqf | unfold not_quote; now rewrite Hq2 |].
  rewrite run_class_hit by exact Hq2.
  reflexivity.
Qed.

Lemma extractRedirectURL_script (pre sp1 sp2 : string) (q1 q2 : ascii)
    (target post : string) :
  strings.Contains pre "window.location" = false ->
  strings.Contains pre "location.href" = false ->
  all_chars is_space sp1 = true -> all_chars is_space sp2 = true ->
  is_quote q1 = true -> is_quote q2 = true ->
  target <> "" -> quote_free target ->
  extractRedirectURL
    (pre +:+ "window.location" +:+ sp1 +:+ "=" +:+ sp2
     +:+ String q1 (target +:+ String q2 post))
  = target.
Proof.
  intros Hw Hl H1 H2 Hq1 Hq2 Hne Hqf.
  destruct (match_here_script sp1 sp2 q1 q2 target post H1 H2 Hq1 Hq2 Hne Hqf)
    as (whole & len & Hm).
  unfold extractRedirectURL. unfold reScriptRedirect in *.
  cbn [seq foldr] in *.
  rewrite find_past_script by assumption.
  destruct ("window.location" +:+ sp1 +:+ "=" +:+ sp2
            +:+ String q1 (target +:+ String q2 post)) as [|c s] eqn:E;
    cbn [FindStringSubmatch]; now rewrite Hm.
Qed.
End ScriptFacts.

(** X14. A script assignment of a quoted target to [window.location], with
    any white space around the equals sign and either quote character
    on each side, that is the first mention of [window.location] and of
    [location.href] in the page, gives [extractRedirectURL] its target,
    whatever else the page holds (a meta refresh included); a login
    answered by such a page, with a status outside 3xx, no custom-scheme
    [Location] and without the words [error] and [invalid], is followed
    from that target. *)
Theorem script_redirect_followed (pre sp1 sp2 : string) (q1 q2 : ascii)
    (target post : string) :
  strings.Contains pre "window.location" = false ->
  strings.Contains pre "location.href" = false ->
  regexp.all_chars regexp.is_space sp1 = true ->
  regexp.all_chars regexp.is_space sp2 = true ->
  regexp.is_quote q1 = true -> regexp.is_quote q2 = true ->
  target <> "" -> regexp.quote_free target ->
  let html :=
    pre +:+ "window.location" +:+ sp1 +:+ "=" +:+ sp2
    +:+ String q1 (target +:+ String q2 post) in
  Manual.extractRedirectURL html = target
  /\ forall (N : NetURL) (World : Type) (C : http.Client World)
       (loginResp : http.Response) (scheme : string) (w : World),
       http.Body loginResp = html ->
       strings.HasPrefix (http.Location loginResp) (scheme +:+ "://") = false ->
       Manual.is_redirect_status (http.StatusCode loginResp) = false ->
       strings.Contains html "error" = false ->
       strings.Contains html "invalid" = false ->
       Manual.afterLogin loginResp scheme w
       = Manual.followRedirects target scheme w.
Proof.
  intros Hw Hl H1 H2 Hq1 Hq2 Hne Hqf html.
  pose proof (extractRedirectURL_script pre sp1 sp2 q1 q2 target post
                Hw Hl H1 H2 Hq1 Hq2 Hne Hqf) as Hx.
  fold html in Hx. split; [exact Hx|].
  intros N World C loginResp scheme w Hb Hp Hs He Hi.
  unfold Manual.afterLogin. rewrite Hb, Hp, Hs, He, Hi, Hx.
  rewrite andb_false_r. cbn [orb].
  apply nonempty_true in Hne. now rewrite Hne.
Qed.

(** ** Two paths through the browser-driven flow *)

Section PathFacts.
Context {N : NetURL} {World : Type} (B : chromedp.Browser World).
Import chromedp Browser.

Lemma deliver_app (redirectPrefix : string) (st : State)
    (evs1 evs2 : list Event) :
  deliver redirectPrefix (deliver redirectPrefix st evs1) evs2
  = deliver redirectPrefix st (evs1 ++ evs2).
Proof. unfold deliver. now rewrite foldl_app. Qed.

Lemma deliver_eq (redirectPrefix : string) (st : State) (evs : list Event) :
  deliver redirectPrefix st evs
  = {| oauthCode := last_capture redirectPrefix (oauthCode st) evs;
       authError := authError st;
       reported := reported st |}.
Proof.
  pose proof (deliver_oauthCode redirectPrefix evs st) as Hc.
  destruct (deliver_authError redirectPrefix evs st) as [He Hr].
  destruct (deliver redirectPrefix st evs) as [c e r]. simpl in *.
  now subst.
Qed.

Lemma last_capture_app (redirectPrefix earlier : string)
    (evs1 evs2 : list Event) :
  last_capture redirectPrefix (last_capture redirectPrefix earlier evs1) evs2
  = last_capture redirectPrefix earlier (evs1 ++ evs2).
Proof.
  pose proof (deliver_app redirectPrefix
                {| oauthCode := earlier; authError := ""; reported := [] |}
                evs1 evs2) as H.
  apply (f_equal oauthCode) in H. now rewrite !deliver_oauthCode in H.
Qed.

(** One [chromedp.Run] of the watched browser. *)
Lemma run_watched (redirectPrefix : string) (t : Tasks) (st : State)
    (w w' : World) (ran : list Tasks) (o : Outcome) :
  Run t w = (o, w') ->
  run (B := watched B) redirectPrefix t st (w, ran)
  = (Next (err o, out o), deliver redirectPrefix st (events o),
     (w', ran ++ [t])).
Proof. intros Hr. unfold run. cbn [Run watched]. now rewrite Hr. Qed.
End PathFacts.

(** X15. When the four task lists up to the click on submit run without
    error and the listener has captured a code by then, the flow
    returns that code, the last one captured, right after the click: it
    reports the five steps and the success, and runs nothing more. *)
Theorem code_captured_by_submit_ends_flow {N : NetURL} {World : Type}
    (B : chromedp.Browser World) (url email password scheme code : string)
    (progress : bool) (w w1 w2 w3 w4 : World)
    (o1 o2 o3 o4 : chromedp.Outcome) :
  chromedp.Run (chromedp.Navigate url) w = (o1, w1) ->
  chromedp.Run chromedp.WaitVisibleEmail w1 = (o2, w2) ->
  chromedp.Run (chromedp.FillCredentials email password) w2 = (o3, w3) ->
  chromedp.Run chromedp.ClickSubmit w3 = (o4, w4) ->
  chromedp.err o1 = None -> chromedp.err o2 = None ->
  chromedp.err o3 = None -> chromedp.err o4 = None ->
  Browser.last_capture (scheme +:+ "://") ""
    (chromedp.events o1 ++ chromedp.events o2 ++ chromedp.events o3
     ++ chromedp.events o4) = code ->
  code <> "" ->
  Browser.performChromedpOAuth (B := watched B) url email password scheme
    progress (w, [])
  = (Ok code,
     if progress then steps_with_code else [],
     (w4, [chromedp.Navigate url; chromedp.WaitVisibleEmail;
           chromedp.FillCredentials email password; chromedp.ClickSubmit])).
Proof.
  intros R1 R2 R3 R4 E1 E2 E3 E4 Hcode Hne.
  apply nonempty_true in Hne.
  rewrite <- !last_capture_app in Hcode.
  unfold Browser.performChromedpOAuth, Browser.flow. cbv zeta.
  destruct progress;
    unfold Browser.bind, Browser.report, Browser.check, Browser.get_oauthCode;
    rewrite (run_watched B _ _ _ _ _ _ _ R1); cbn [fst]; rewrite E1;
    cbn [Browser.ret];
    rewrite (run_watched B _ _ _ _ _ _ _ R2); cbn [fst]; rewrite E2;
    cbn [Browser.ret];
    rewrite (run_watched B _ _ _ _ _ _ _ R3); cbn [fst]; rewrite E3;
    cbn [Browser.ret];
    rewrite (run_watched B _ _ _ _ _ _ _ R4); cbn [fst]; rewrite E4;
    cbn [Browser.ret];
    rewrite !deliver_eq;
    cbn [Browser.oauthCode Browser.add_reported Browser.initial
         Browser.reported Browser.authError];
    rewrite Hcode, Hne; reflexivity.
Qed.

(** X16. When the login form does not become visible, the flow reads the
    page and returns the error of the wait: the credentials are never
    entered, and neither the text of the page nor a code the listener
    has captured changes the result. *)
Theorem login_form_timeout_ends_flow {N : NetURL} {World : Type}
    (B : chromedp.Browser World) (url email password scheme e : string)
    (progress : bool) (w w1 w2 w3 : World)
    (o1 o2 o3 : chromedp.Outcome) :
  chromedp.Run (chromedp.Navigate url) w = (o1, w1) ->
  chromedp.Run chromedp.WaitVisibleEmail w1 = (o2, w2) ->
  chromedp.Run chromedp.OuterHTML w2 = (o3, w3) ->
  chromedp.err o1 = None -> chromedp.err o2 = Some e ->
  Browser.performChromedpOAuth (B := watched B) url email password scheme
    progress (w, [])
  = (Err ("login form not found (timeout): " +:+ e),
     if progress
     then ["Starting browser..."; "Loading login page...";
           "Waiting for login form..."]
     else [],
     (w3, [chromedp.Navigate url; chromedp.WaitVisibleEmail;
           chromedp.OuterHTML])).
Proof.
  intros R1 R2 R3 E1 E2.
  assert (Hs : fmt.Sprintf "login form not found (timeout): %v" [e]
               = "login form not found (timeout): " +:+ e).
  { simpl. now rewrite append_nil_r. }
  unfold Browser.performChromedpOAuth, Browser.flow. cbv zeta.
  destruct progress;
    unfold Browser.bind, Browser.report, Browser.check, Browser.when;
    rewrite (run_watched B _ _ _ _ _ _ _ R1); cbn [fst]; rewrite E1;
    cbn [Browser.ret];
    rewrite (run_watched B _ _ _ _ _ _ _ R2); cbn [fst]; rewrite E2;
    rewrite (run_watched B _ _ _ _ _ _ _ R3); cbn [snd];
    rewrite !deliver_eq, Hs;
    destruct (strings.Contains (chromedp.out o3) "error"
              || strings.Contains (chromedp.out o3) "Error");
    reflexivity.
Qed.

(** ** The login answered by the code *)

Lemma HasPrefix_nonempty (s scheme : string) :
  strings.HasPrefix s (scheme +:+ "://") = true -> nonempty s = true.
Proof. destruct s; [destruct scheme; discriminate | reflexivity]. Qed.

(** X17. When the answer to the login has a [Location] of the custom scheme
    whose [code] parameter is not empty, [performOAuth] returns that
    code without a further request, whatever the status and the body of
    the answer, and the handler answers 200 with the code. *)
Theorem login_answered_with_code {N : NetURL} {World : Type}
    {C : http.Client World} (req : OAuthRequest) (w w1 w2 w3 : World)
    (configs : gmap string BrandConfig) (brandConfig : BrandConfig)
    (countryConfig : CountryConfig) (authResp loginResp : http.Response)
    (parsed : URL) :
  http.Get_configs w = (http.Fetched configs, w1) ->
  lookupConfig configs req = inr (brandConfig, countryConfig) ->
  http.client_Get (Scheme brandConfig)
    (authURL brandConfig countryConfig (Country req)) w1
  = (inr authResp, w2) ->
  http.BodyErr authResp = None ->
  let formAction :=
    Manual.extractFormAction (http.Body authResp) (OAuthURL brandConfig) in
  formAction <> "" ->
  http.client_Post (Scheme brandConfig) formAction
    (Manual.loginData req (http.Body authResp)) w2
  = (http.Posted loginResp, w3) ->
  strings.HasPrefix (http.Location loginResp) (Scheme brandConfig +:+ "://")
  = true ->
  url_Parse (http.Location loginResp) = inr parsed ->
  Query_Get parsed "code" <> "" ->
  Manual.performOAuth req w = (Ok (Query_Get parsed "code"), w3)
  /\ (all_present req ->
      forall accept,
        Manual.handleOAuth
          {| Method := "POST"; Accept := accept; Decoded := Some req |} w
        = (sendSuccess (Query_Get parsed "code"), w3)).
Proof.
  intros Hc Hl Hg Hb formAction Hf Hp Hloc Hparse Hcode.
  assert (Hrun : Manual.performOAuth req w
                 = (Ok (Query_Get parsed "code"), w3)).
  { unfold Manual.performOAuth. rewrite Hc, Hl, Hg, Hb.
    fold formAction. apply nonempty_true in Hf. rewrite Hf. cbn [negb].
    rewrite Hp. unfold Manual.afterLogin.
    rewrite Hloc, (HasPrefix_nonempty _ _ Hloc). cbn [andb].
    unfold Manual.extractCode. rewrite Hparse.
    apply nonempty_true in Hcode. now rewrite Hcode. }
  split; [exact Hrun|]. intros Hall accept.
  unfold Manual.handleOAuth. cbn [Method Decoded].
  now rewrite (validation_passes req Hall), Hrun.
Qed.

(** ** Examples *)


Lemma authURL_independent_of_clientSecret_witness :
  redact Examples.configs = redact Examples.configs'
  /\ Browser.performOAuth (N := neturl.model) (B := Examples.quiet)
       (inr Examples.configs) Examples.request true 0%nat
     = Browser.performOAuth (N := neturl.model) (B := Examples.quiet)
         (inr Examples.configs') Examples.request true 0%nat.
Proof.
  assert (Hr : redact Examples.configs = redact Examples.configs')
    by (vm_compute; reflexivity).
  split; [exact Hr|].
  destruct (authURL_independent_of_clientSecret Examples.configs
              Examples.configs' Examples.request Hr) as (_ & _ & Hp).
  exact (Hp neturl.model nat Examples.quiet true 0%nat).
Defined.

Lemma missing_field_rejected_before_automation_witness :
  Password Examples.request_without_password = ""
  /\ Manual.handleOAuth (N := neturl.model) (C := Examples.redirecting)
       (Examples.post Examples.request_without_password) 0%nat
     = (sendError "All fields are required" 400, 0%nat).
Proof.
  split; [reflexivity|].
  destruct (missing_field_rejected_before_automation
              Examples.request_without_password "application/json"
              (or_intror (or_intror (or_intror eq_refl)))) as [Hm _].
  exact (Hm neturl.model nat Examples.redirecting 0%nat).
Defined.

Lemma performOAuth_errors_surface_as_400_witness :
  Manual.performOAuth (N := neturl.model) (C := Examples.looping)
    Examples.request 0%nat
  = (Err "failed to fetch configs: dial tcp: i/o timeout", 1%nat)
  /\ Manual.handleOAuth (N := neturl.model) (C := Examples.looping)
       (Examples.post Examples.request) 0%nat
     = (sendError "failed to fetch configs: dial tcp: i/o timeout" 400, 1%nat).
Proof.
  assert (Hrun : Manual.performOAuth (N := neturl.model)
                   (C := Examples.looping) Examples.request 0%nat
                 = (Err "failed to fetch configs: dial tcp: i/o timeout",
                    1%nat)) by reflexivity.
  split; [exact Hrun|].
  assert (Hall : all_present Examples.request)
    by (repeat split; discriminate).
  destruct (performOAuth_errors_surface_as_400 (Examples.post Examples.request)
              Examples.request eq_refl eq_refl Hall) as [Hm _].
  exact (Hm neturl.model nat Examples.looping 0%nat 1%nat _ Hrun).
Defined.

Lemma authError_branch_unreachable_witness :
  Browser.performChromedpOAuth (N := neturl.model) (B := Examples.quiet)
    "https://idpcvs.peugeot.com/am/oauth2/authorize" "driver@example.org"
    "hunter2" "mymap" false 0%nat
  = (Err "authentication failed - could not retrieve OAuth code", [], 9%nat).
Proof.
  destruct (authError_branch_unreachable (N := neturl.model)
              (B := Examples.quiet)
              "https://idpcvs.peugeot.com/am/oauth2/authorize"
              "driver@example.org" "hunter2" "mymap" false 0%nat)
    as [_ Hp].
  rewrite Hp. reflexivity.
Defined.

(** On two redirect requests with different codes the listener ends
    with the second code, where the specification's reading keeps the
    first; and a run in which the click on submit triggers both returns
    the second code. *)
Lemma listener_overwrites_captured_code :
  Browser.first_capture (N := neturl.model) "mymap://" Examples.two_redirects
  = "first"
  /\ Browser.oauthCode
       (Browser.deliver (N := neturl.model) "mymap://" Browser.initial
          Examples.two_redirects)
     = "second"
  /\ Browser.oauthCode
       (Browser.deliver (N := neturl.model) "mymap://" Browser.initial
          Examples.two_redirects)
     <> Browser.first_capture (N := neturl.model) "mymap://"
          Examples.two_redirects
  /\ fst (fst (Browser.performChromedpOAuth (N := neturl.model)
                 (B := Examples.double_redirect)
                 "https://idpcvs.peugeot.com/am/oauth2/authorize"
                 "driver@example.org" "hunter2" "mymap" false 0%nat))
     = Ok "second".
Proof.
  split; [reflexivity|]. split; [reflexivity|].
  split; [vm_compute; discriminate | reflexivity].
Qed.

(** A login response with both a script redirect and the word "error"
    gets the credential error, and is not followed. *)
Lemma script_redirect_with_error_not_followed :
  let body := http.Body Examples.script_and_error in
  Manual.extractRedirectURL body = "https://idp.example/next"
  /\ strings.Contains body "error" = true
  /\ Manual.afterLogin (N := neturl.model) (C := Examples.redirecting)
       Examples.script_and_error "mymap" 0%nat
     = (Err "authentication failed - please check your credentials", 0%nat)
  /\ Manual.followRedirects (N := neturl.model) (C := Examples.redirecting)
       "https://idp.example/next" "mymap" 0%nat
     = (Ok "abc123", 1%nat)
  /\ Manual.afterLogin (N := neturl.model) (C := Examples.redirecting)
       Examples.script_and_error "mymap" 0%nat
     <> Manual.followRedirects (N := neturl.model) (C := Examples.redirecting)
          (Manual.extractRedirectURL body) "mymap" 0%nat.
Proof.
  repeat split; try (vm_compute; reflexivity). vm_compute. discriminate.
Qed.

Lemma afterLogin_order_witness :
  Manual.afterLogin (N := neturl.model) (C := Examples.redirecting)
    Examples.script_and_error "mymap" 0%nat
  = (Err "authentication failed - please check your credentials", 0%nat).
Proof.
  destruct (afterLogin_order (N := neturl.model) (C := Examples.redirecting)
              Examples.script_and_error "mymap" 0%nat eq_refl)
    as (_ & Hflag & _).
  apply Hflag; vm_compute; reflexivity.
Defined.





Lemma followRedirects_ends_chain_witness :
  Manual.chain (C := Examples.broken_hop) 1 "mymap"
    "https://idp.example/start" 0%nat
  /\ Manual.followRedirects (N := neturl.model) (C := Examples.broken_hop)
       "https://idp.example/start" "mymap" 0%nat
     = (Err "failed to follow redirect: connection refused", 2%nat).
Proof.
  assert (Hc : Manual.chain (C := Examples.broken_hop) 1 "mymap"
                 "https://idp.example/start" 0%nat).
  { split; [reflexivity|]. eexists _, _. split; [reflexivity|].
    split; [vm_compute; discriminate|].
    split; [vm_compute; reflexivity | exact I]. }
  split; [exact Hc|].
  exact (followRedirects_ends_chain (N := neturl.model)
           (C := Examples.broken_hop) 1 "mymap" "https://idp.example/start"
           "https://idp.example/next" 0%nat 1%nat ltac:(lia) Hc eq_refl).
Defined.

Lemma invalid_request_rejected_without_automation_witness :
  Manual.handleOAuth (N := neturl.model) (C := Examples.looping)
    Examples.get 0%nat
  = (sendError "Method not allowed" 405, 0%nat)
  /\ Browser.handleOAuth (N := neturl.model) (B := Examples.quiet)
       (inr Examples.configs) true Examples.garbled 0%nat
     = (Browser.JSON (sendError "Invalid request body" 400), 0%nat).
Proof.
  split.
  - destruct (invalid_request_rejected_without_automation Examples.get)
      as [H _].
    destruct (H ltac:(discriminate)) as [Hm _].
    exact (Hm neturl.model nat Examples.looping 0%nat).
  - destruct (invalid_request_rejected_without_automation Examples.garbled)
      as [_ H].
    destruct (H eq_refl eq_refl) as [_ Hb].
    exact (Hb neturl.model nat Examples.quiet (inr Examples.configs) true
             0%nat).
Defined.

Lemma unknown_brand_or_country_rejected_witness :
  Manual.handleOAuth (N := neturl.model) (C := Examples.formless)
    (Examples.post Examples.request_for_lada) 0%nat
  = (sendError "unknown brand: Lada" 400, 1%nat).
Proof.
  destruct (unknown_brand_or_country_rejected
              (Examples.post Examples.request_for_lada)
              Examples.request_for_lada Examples.configs
              "unknown brand: Lada" eq_refl eq_refl
              ltac:(repeat split; discriminate)
              (or_introl (conj eq_refl eq_refl)))
    as (Hm & _).
  exact (Hm neturl.model nat Examples.formless 0%nat 1%nat eq_refl).
Defined.

Lemma login_payload_without_inputs_witness :
  Manual.loginData Examples.request
    "<html><body>Service unavailable</body></html>"
  = {[ "username" := "driver@example.org"; "password" := "hunter2";
       "rememberMe" := "false" ]}.
Proof.
  exact (proj2 (login_payload_without_inputs Examples.request
                  "<html><body>Service unavailable</body></html>" eq_refl)).
Defined.


Lemma no_login_form_nothing_submitted_witness :
  Manual.performOAuth (N := neturl.model) (C := Examples.formless)
    Examples.request 0%nat
  = (Err "could not find login form", 2%nat).
Proof.
  exact (proj1 (no_login_form_nothing_submitted (N := neturl.model)
                  Examples.formless Examples.request 0%nat 1%nat 2%nat
                  Examples.configs Examples.peugeot Examples.peugeot_gb
                  _ eq_refl eq_refl eq_refl eq_refl eq_refl)).
Defined.

Lemma page_without_redirect_ends_flow_witness :
  Manual.afterLogin (N := neturl.model) (C := Examples.looping)
    Examples.welcome "mymap" 0%nat
  = (Err "authentication failed - could not complete OAuth flow", 0%nat).
Proof.
  destruct (page_without_redirect_ends_flow (N := neturl.model)
              (C := Examples.looping) Examples.welcome "mymap" 0%nat
              eq_refl eq_refl eq_refl) as [_ H].
  exact (H eq_refl eq_refl eq_refl eq_refl).
Defined.

Lemma script_redirect_followed_witness :
  Manual.extractRedirectURL (http.Body Examples.script_and_error)
  = "https://idp.example/next".
Proof.
  exact (proj1 (script_redirect_followed "<script>" " " " " "'" "'"
                  "https://idp.example/next" "</script><p>no error</p>"
                  eq_refl eq_refl eq_refl eq_refl eq_refl eq_refl
                  ltac:(discriminate) eq_refl)).
Defined.

Lemma code_captured_by_submit_ends_flow_witness :
  Browser.performChromedpOAuth (N := neturl.model)
    (B := watched Examples.double_redirect) "https://idp.example/authorize"
    "driver@example.org" "hunter2" "mymap" true (0%nat, [])
  = (Ok "second", steps_with_code,
     (4%nat,
      [chromedp.Navigate "https://idp.example/authorize";
       chromedp.WaitVisibleEmail;
       chromedp.FillCredentials "driver@example.org" "hunter2";
       chromedp.ClickSubmit])).
Proof.
  exact (code_captured_by_submit_ends_flow (N := neturl.model)
           Examples.double_redirect "https://idp.example/authorize"
           "driver@example.org" "hunter2" "mymap" "second" true
           0%nat 1%nat 2%nat 3%nat 4%nat _ _ _ _
           eq_refl eq_refl eq_refl eq_refl eq_refl eq_refl eq_refl eq_refl
           eq_refl ltac:(discriminate)).
Defined.

Lemma login_form_timeout_ends_flow_witness :
  Browser.performChromedpOAuth (N := neturl.model)
    (B := watched Examples.stuck) "https://idp.example/authorize"
    "driver@example.org" "hunter2" "mymap" false (0%nat, [])
  = (Err "login form not found (timeout): context deadline exceeded", [],
     (3%nat,
      [chromedp.Navigate "https://idp.example/authorize";
       chromedp.WaitVisibleEmail; chromedp.OuterHTML])).
Proof.
  exact (login_form_timeout_ends_flow (N := neturl.model) Examples.stuck
           "https://idp.example/authorize" "driver@example.org" "hunter2"
           "mymap" "context deadline exceeded" false 0%nat 1%nat 2%nat 3%nat
           _ _ _ eq_refl eq_refl eq_refl eq_refl eq_refl).
Defined.

Lemma login_answered_with_code_witness :
  Manual.performOAuth (N := neturl.model) (C := Examples.portal)
    Examples.request []
  = (Ok "abc123",
     ["configs";
      "https://idpcvs.peugeot.com/am/oauth2/authorize?client_id=1eebc2d5&response_type=code&redirect_uri=mymap%3A%2F%2Foauth2redirect%2Fgb&scope=openid%20profile%20email&locale=en-GB";
      "https://idpcvs.peugeot.com/login"]).
Proof.
  destruct (login_answered_with_code (N := neturl.model)
              (C := Examples.portal) Examples.request [] _ _ _
              Examples.configs Examples.peugeot Examples.peugeot_gb _ _
              {| neturl.RawQuery := "code=abc123" |}
              eq_refl eq_refl eq_refl eq_refl
              ltac:(vm_compute; discriminate) eq_refl eq_refl eq_refl
              ltac:(vm_compute; discriminate)) as [H _].
  rewrite H. vm_compute. reflexivity.
Defined.
